(** * entcache: a read cache layered over a database driver

    A shallow embedding of the cache tiers (entry codec, LRU tier, Redis tier,
    multi-level composer), of the row recorder and repeater, and of the
    driver decorator ([Driver.Query], [Driver.optionsFromContext],
    [Driver.Stats]), followed by the properties of the specification that
    are settled on it.

    Conventions of the embedding.
    - A Go [error] is an [option error] ([None] is [nil]); a Go pair
      [(T, error)] is a [result T].
    - Mutable receivers are passed in and returned: a method
      [func (x *X) M(a) r] becomes [X_M a x : r * X].
    - [time.Now()] is read from an explicit argument [now]; instants and
      durations are integers (nanoseconds).
    - Libraries the package imports but does not contain (encoding/gob,
      hashstructure, the Redis client, database/sql rows, the wrapped
      driver) are interfaces: type classes whose instances are the
      implementations plugged in. *)

From Stdlib Require Import ZArith List String Bool Lia DecimalString.
From Stdlib.Strings Require Import Byte.
Import ListNotations.
Local Open Scope Z_scope.

Set Implicit Arguments.

(* ================================================================== *)
(** * Basic data *)
(* ================================================================== *)

(** Go error values. [ErrNotFound] and [errSkip] are the two sentinels the
    package declares; [ErrNoRows] is database/sql's; every other error
    value is an [Errorf] with its message. *)
Inductive error : Type :=
| ErrNotFound
| errSkip
| ErrNoRows
| Errorf (msg : string).

Definition error_eq_dec (a b : error) : {a = b} + {a <> b}.
Proof. decide equality; apply string_dec. Defined.

(** [err == ErrNotFound] *)
Definition is_ErrNotFound (e : error) : bool :=
  match e with ErrNotFound => true | _ => false end.

Inductive result (A : Type) : Type :=
| Ok (a : A)
| Err (e : error).
Arguments Ok {A} a.
Arguments Err {A} e.

(** [time.Time] and [time.Duration], in nanoseconds. *)
Definition Time := Z.
Definition Duration := Z.

(** [t.Add(d)] *)
Definition Time_Add (t : Time) (d : Duration) : Time := t + d.
(** [t.Before(u)] *)
Definition Time_Before (t u : Time) : bool := t <? u.

(** [driver.Value]: the dynamic types a driver hands out. A float is kept
    as its 64-bit pattern. *)
Inductive Value : Type :=
| VNil
| VInt64 (n : Z)
| VFloat64 (bits : Z)
| VBool (b : bool)
| VBytes (b : list byte)
| VString (s : string)
| VTime (t : Time).

Definition Value_eq_dec (a b : Value) : {a = b} + {a <> b}.
Proof.
  decide equality;
    try apply Z.eq_dec; try apply Bool.bool_dec; try apply string_dec.
  apply (list_eq_dec byte_eq_dec).
Defined.

(** [Key any]: the dynamic types of keys that occur in the package and its
    tests: the untyped [nil] (no key), the [uint64] of the default hasher,
    an [int], a [string]. *)
Inductive Key : Type :=
| KNil
| KUint64 (n : Z)
| KInt (n : Z)
| KString (s : string).

Definition Key_eq_dec (a b : Key) : {a = b} + {a <> b}.
Proof. decide equality; try apply Z.eq_dec; apply string_dec. Defined.

Definition Key_eqb (a b : Key) : bool :=
  if Key_eq_dec a b then true else false.

(** [opts.key == nil] *)
Definition Key_is_nil (k : Key) : bool :=
  match k with KNil => true | _ => false end.

(** [fmt.Sprint(k)] *)
Definition Sprint (k : Key) : string :=
  match k with
  | KNil => "<nil>"
  | KUint64 n => NilZero.string_of_int (Z.to_int n)
  | KInt n => NilZero.string_of_int (Z.to_int n)
  | KString s => s
  end.

(** [Entry]: the column names and the rows of raw values of one query. *)
Record Entry : Type := mkEntry {
  Columns : list string;
  Values : list (list Value)
}.

Definition Entry_eq_dec (a b : Entry) : {a = b} + {a <> b}.
Proof.
  decide equality.
  - apply (list_eq_dec (list_eq_dec Value_eq_dec)).
  - apply (list_eq_dec string_dec).
Defined.

(** [&Entry{}] *)
Definition Entry_zero : Entry := mkEntry [] [].

(* ================================================================== *)
(** * Entry codec *)
(* ================================================================== *)

(** The anonymous struct [{C []string; V [][]driver.Value}] that is put on
    the wire. *)
Record wire : Type := mkWire {
  C : list string;
  V : list (list Value)
}.

Definition wire_eq_dec (a b : wire) : {a = b} + {a <> b}.
Proof.
  decide equality.
  - apply (list_eq_dec (list_eq_dec Value_eq_dec)).
  - apply (list_eq_dec string_dec).
Defined.

(** encoding/gob, as the codec uses it:
    [gob.NewEncoder(&buf).Encode(entry)] and
    [gob.NewDecoder(bytes.NewBuffer(buf)).Decode(&entry)]. *)
Class Gob : Type := {
  gob_Encode : wire -> result (list byte);
  gob_Decode : list byte -> result wire
}.

(** [Entry.MarshalBinary] *)
Definition MarshalBinary {G : Gob} (e : Entry) : result (list byte) :=
  let entry := mkWire (Columns e) (Values e) in
  match gob_Encode entry with
  | Err err => Err err
  | Ok buf => Ok buf
  end.

(** [Entry.UnmarshalBinary]: the receiver is left as it was when the
    decoder fails. *)
Definition UnmarshalBinary {G : Gob} (buf : list byte) (e : Entry)
  : option error * Entry :=
  match gob_Decode buf with
  | Err err => (Some err, e)
  | Ok entry =>
      let e1 := mkEntry (Columns e) (V entry) in
      let e2 := mkEntry (C entry) (Values e1) in
      (None, e2)
  end.

(* ================================================================== *)
(** * The bounded store under the LRU tier *)
(* ================================================================== *)

(** Modelled from the spec: the bounded least-recently-used store that the
    LRU tier embeds (its type, [lru.Cache], is imported; its code is not
    part of the package). The spec gives: keyed by [Key]; a capacity of
    zero is unbounded; beyond a non-zero capacity the least recently used
    element is evicted, so that with a negative capacity every add is
    discarded. The elements are kept most recently used first. *)
Module lru.
Section Cache.
Context {A : Type}.

Record Cache : Type := mkCache {
  MaxEntries : Z;
  ll : list (Key * A)
}.

Definition New (maxEntries : Z) : Cache := mkCache maxEntries [].

Fixpoint find (k : Key) (l : list (Key * A)) : option A :=
  match l with
  | [] => None
  | (k', v) :: l' => if Key_eqb k k' then Some v else find k l'
  end.

Fixpoint unlink (k : Key) (l : list (Key * A)) : list (Key * A) :=
  match l with
  | [] => []
  | (k', v) :: l' =>
      if Key_eqb k k' then unlink k l' else (k', v) :: unlink k l'
  end.

Definition Len (c : Cache) : Z := Z.of_nat (List.length (ll c)).

Definition RemoveOldest (c : Cache) : Cache :=
  mkCache (MaxEntries c) (removelast (ll c)).

Definition Add (k : Key) (v : A) (c : Cache) : Cache :=
  match find k (ll c) with
  | Some _ => mkCache (MaxEntries c) ((k, v) :: unlink k (ll c))
  | None =>
      let c1 := mkCache (MaxEntries c) ((k, v) :: ll c) in
      if negb (MaxEntries c1 =? 0) && (MaxEntries c1 <? Len c1)
      then RemoveOldest c1
      else c1
  end.

Definition Get (k : Key) (c : Cache) : option A * Cache :=
  match find k (ll c) with
  | Some v => (Some v, mkCache (MaxEntries c) ((k, v) :: unlink k (ll c)))
  | None => (None, c)
  end.

Definition Remove (k : Key) (c : Cache) : Cache :=
  mkCache (MaxEntries c) (unlink k (ll c)).

(** What the store holds under [k], without touching the recency order. *)
Definition peek (k : Key) (c : Cache) : option A := find k (ll c).
End Cache.
Arguments Cache : clear implicits.
End lru.

(* ================================================================== *)
(** * Cache tiers *)
(* ================================================================== *)

(** [AddGetDeleter]: the interface of a tier. The state of the tier is
    threaded; [now] is the instant [time.Now()] returns during the call.
    The context argument serves cancellation only and is left out. *)
Class AddGetDeleter (S : Type) : Type := {
  Del : Time -> Key -> S -> option error * S;
  Add : Time -> Key -> Entry -> Duration -> S -> option error * S;
  Get : Time -> Key -> S -> result Entry * S
}.

(** ** LRU tier *)

(** [entry]: an [Entry] with its expiry. *)
Record entry : Type := mk_entry {
  entry_Entry : Entry;
  expiry : Time
}.

(** The dynamic types of the values found in the store: [*Entry], [*entry],
    or anything else (the store is an exported field of the tier). *)
Inductive cached : Type :=
| ptrEntry (e : Entry)
| ptr_entry (e : entry)
| unexpected (tyname : string).

(** [LRU]: the embedded [*lru.Cache] (the mutex guards concurrent use, which
    is not modelled). *)
Definition LRU : Type := lru.Cache cached.

(** [NewLRU] *)
Definition NewLRU (maxEntries : Z) : LRU := lru.New maxEntries.

(** [LRU.Add] *)
Definition LRU_Add {G : Gob} (now : Time) (k : Key) (e : Entry) (ttl : Duration)
  (l : LRU) : option error * LRU :=
  match MarshalBinary e with
  | Err err => (Some err, l)
  | Ok buf =>
      match UnmarshalBinary buf Entry_zero with
      | (Some err, _) => (Some err, l)
      | (None, ne) =>
          if ttl =? 0
          then (None, lru.Add k (ptrEntry ne) l)
          else (None, lru.Add k (ptr_entry (mk_entry ne (Time_Add now ttl))) l)
      end
  end.

(** [LRU.Get] *)
Definition LRU_Get (now : Time) (k : Key) (l : LRU) : result Entry * LRU :=
  match lru.Get k l with
  | (None, l1) => (Err ErrNotFound, l1)
  | (Some e, l1) =>
      match e with
      | ptrEntry e => (Ok e, l1)
      | ptr_entry e =>
          if Time_Before now (expiry e)
          then (Ok (entry_Entry e), l1)
          else (Err ErrNotFound, lru.Remove k l1)
      | unexpected _ =>
          (Err (Errorf "entcache: unexpected entry type"), l1)
      end
  end.

(** [LRU.Del] *)
Definition LRU_Del (k : Key) (l : LRU) : option error * LRU :=
  (None, lru.Remove k l).

#[export] Instance LRU_AddGetDeleter {G : Gob} : AddGetDeleter LRU := {
  Del := fun _ k l => LRU_Del k l;
  Add := LRU_Add;
  Get := LRU_Get
}.

(** ** Redis tier *)

(** [redis.Cmdable], as the tier uses it: [Set(..).Err()],
    [Get(..).Bytes()], [Del(..).Err()]. [R] is the state of the connection
    and of the service behind it. *)
Class Cmdable (R : Type) : Type := {
  redis_Set : string -> list byte -> Duration -> R -> option error * R;
  redis_Get : string -> R -> result (list byte) * R;
  redis_Del : string -> R -> option error * R
}.

(** [redis.Nil], the service's reply for a key it does not hold. *)
Definition redis_Nil : error := Errorf "redis: nil".

(** [Redis] *)
Record Redis (R : Type) : Type := mkRedis { c : R }.

(** [NewRedis] *)
Definition NewRedis {R : Type} (c : R) : Redis R := mkRedis c.

(** [Redis.Add] *)
Definition Redis_Add {R} {CM : Cmdable R} {G : Gob} (k : Key) (e : Entry)
  (ttl : Duration) (r : Redis R) : option error * Redis R :=
  let key := Sprint k in
  if String.eqb key "" then (None, r)
  else
    match MarshalBinary e with
    | Err err => (Some err, r)
    | Ok buf =>
        match redis_Set key buf ttl (c r) with
        | (Some err, c1) => (Some err, mkRedis c1)
        | (None, c1) => (None, mkRedis c1)
        end
    end.

(** [Redis.Get] *)
Definition Redis_Get {R} {CM : Cmdable R} {G : Gob} (k : Key) (r : Redis R)
  : result Entry * Redis R :=
  let key := Sprint k in
  if String.eqb key "" then (Err ErrNotFound, r)
  else
    match redis_Get key (c r) with
    | (Err _, c1) => (Err ErrNotFound, mkRedis c1)
    | (Ok buf, c1) =>
        if (List.length buf =? 0)%nat then (Err ErrNotFound, mkRedis c1)
        else
          match UnmarshalBinary buf Entry_zero with
          | (Some err, _) => (Err err, mkRedis c1)
          | (None, e) => (Ok e, mkRedis c1)
          end
    end.

(** [Redis.Del] *)
Definition Redis_Del {R} {CM : Cmdable R} (k : Key) (r : Redis R)
  : option error * Redis R :=
  let key := Sprint k in
  if String.eqb key "" then (None, r)
  else
    match redis_Del key (c r) with
    | (err, c1) => (err, mkRedis c1)
    end.

#[export] Instance Redis_AddGetDeleter {R} {CM : Cmdable R} {G : Gob}
  : AddGetDeleter (Redis R) := {
  Del := fun _ k r => Redis_Del k r;
  Add := fun _ k e ttl r => Redis_Add k e ttl r;
  Get := fun _ k r => Redis_Get k r
}.

(** ** Multi-level composer *)

(** [multiLevel] *)
Record multiLevel (S : Type) : Type := mkMultiLevel { levels : list S }.

Section MultiLevel.
Context {S : Type} {AGD : AddGetDeleter S}.

(** The loop of [multiLevel.Add], from the level it stands at. *)
Fixpoint multiLevel_Add_loop (now : Time) (k : Key) (e : Entry)
  (ttl : Duration) (ls : list S) : option error * list S :=
  match ls with
  | [] => (None, [])
  | l :: rest =>
      match Add now k e ttl l with
      | (Some err, l1) => (Some err, l1 :: rest)
      | (None, l1) =>
          let (r, rest1) := multiLevel_Add_loop now k e ttl rest in
          (r, l1 :: rest1)
      end
  end.

(** The loop of [multiLevel.Get]. *)
Fixpoint multiLevel_Get_loop (now : Time) (k : Key) (ls : list S)
  : result Entry * list S :=
  match ls with
  | [] => (Err ErrNotFound, [])
  | l :: rest =>
      match Get now k l with
      | (Ok e, l1) => (Ok e, l1 :: rest)
      | (Err err, l1) =>
          if negb (is_ErrNotFound err) then (Err err, l1 :: rest)
          else
            let (r, rest1) := multiLevel_Get_loop now k rest in
            (r, l1 :: rest1)
      end
  end.

(** The loop of [multiLevel.Del]. *)
Fixpoint multiLevel_Del_loop (now : Time) (k : Key) (ls : list S)
  : option error * list S :=
  match ls with
  | [] => (None, [])
  | l :: rest =>
      match Del now k l with
      | (Some err, l1) => (Some err, l1 :: rest)
      | (None, l1) =>
          let (r, rest1) := multiLevel_Del_loop now k rest in
          (r, l1 :: rest1)
      end
  end.

(** What one tier answers to a call, and what it becomes by it. *)
Definition Get_misses (now : Time) (k : Key) (l : S) : Prop :=
  fst (Get now k l) = Err ErrNotFound.
Definition Add_succeeds (now : Time) (k : Key) (e : Entry) (ttl : Duration)
  (l : S) : Prop :=
  fst (Add now k e ttl l) = None.
Definition Del_succeeds (now : Time) (k : Key) (l : S) : Prop :=
  fst (Del now k l) = None.
Definition after_Get (now : Time) (k : Key) (l : S) : S :=
  snd (Get now k l).
Definition after_Add (now : Time) (k : Key) (e : Entry) (ttl : Duration)
  (l : S) : S :=
  snd (Add now k e ttl l).
Definition after_Del (now : Time) (k : Key) (l : S) : S :=
  snd (Del now k l).

(** [multiLevel.Add] *)
Definition multiLevel_Add now k e ttl (m : multiLevel S)
  : option error * multiLevel S :=
  let (r, ls) := multiLevel_Add_loop now k e ttl (levels m) in
  (r, mkMultiLevel ls).

(** [multiLevel.Get] *)
Definition multiLevel_Get now k (m : multiLevel S)
  : result Entry * multiLevel S :=
  let (r, ls) := multiLevel_Get_loop now k (levels m) in
  (r, mkMultiLevel ls).

(** [multiLevel.Del] *)
Definition multiLevel_Del now k (m : multiLevel S)
  : option error * multiLevel S :=
  let (r, ls) := multiLevel_Del_loop now k (levels m) in
  (r, mkMultiLevel ls).
End MultiLevel.

#[export] Instance multiLevel_AddGetDeleter {S} {AGD : AddGetDeleter S}
  : AddGetDeleter (multiLevel S) := {
  Del := multiLevel_Del;
  Add := multiLevel_Add;
  Get := multiLevel_Get
}.

(** A slice of tiers holds tiers of different dynamic types; a sum of two
    tier types is a tier, dispatching on the side. *)
#[export] Instance sum_AddGetDeleter {S1 S2} {AGD1 : AddGetDeleter S1}
  {AGD2 : AddGetDeleter S2} : AddGetDeleter (S1 + S2) := {
  Del := fun now k s =>
    match s with
    | inl a => let (r, a1) := Del now k a in (r, inl a1)
    | inr b => let (r, b1) := Del now k b in (r, inr b1)
    end;
  Add := fun now k e ttl s =>
    match s with
    | inl a => let (r, a1) := Add now k e ttl a in (r, inl a1)
    | inr b => let (r, b1) := Add now k e ttl b in (r, inr b1)
    end;
  Get := fun now k s =>
    match s with
    | inl a => let (r, a1) := Get now k a in (r, inl a1)
    | inr b => let (r, b1) := Get now k b in (r, inr b1)
    end
}.

(* ================================================================== *)
(** * Row streams: recorder and repeater *)
(* ================================================================== *)

(** [sql.ColumnScanner], as the recorder uses the stream it wraps. [cs_Scan n]
    is [Scan] called with [n] destinations that are scanners: it yields the
    raw values of the current row, which the stream hands in order to the
    destinations, or the error [Scan] returns. *)
Class ColumnScanner (T : Type) : Type := {
  cs_Close : T -> option error * T;
  cs_Columns : T -> result (list string) * T;
  cs_Err : T -> option error;
  cs_Next : T -> bool * T;
  cs_Scan : nat -> T -> result (list Value) * T
}.

(** [database/sql.convertAssign], which the package links to, over the
    caller's destinations. *)
Class Converter (Dest : Type) : Type := {
  convertAssign : Dest -> Value -> option error
}.

(** An index or slice expression out of range panics. *)
Definition index_out_of_range : error :=
  Errorf "runtime error: index out of range".

(** [rawCopy]: [values] is a window [rc_array[rc_low:]] on the array that
    the local [values] of [recorder.Scan] points to as well. *)
Record rawCopy : Type := mkRawCopy {
  rc_array : list Value;
  rc_low : nat
}.

Fixpoint set_at {A : Type} (i : nat) (x : A) (l : list A) : list A :=
  match l, i with
  | [], _ => []
  | _ :: l', O => x :: l'
  | y :: l', S i' => y :: set_at i' x l'
  end.

(** [rawCopy.Scan]: a byte slice is copied (a list is its own copy). *)
Definition rawCopy_Scan (src : Value) (c : rawCopy) : option error * rawCopy :=
  let src1 := match src with VBytes b => VBytes b | _ => src end in
  if (rc_low c <? List.length (rc_array c))%nat
  then (None, mkRawCopy (set_at (rc_low c) src1 (rc_array c)) (S (rc_low c)))
  else (Some index_out_of_range, c).

(** The stream hands the raw values of the row to the destinations. *)
Fixpoint rawCopy_feed (srcs : list Value) (c : rawCopy)
  : option error * rawCopy :=
  match srcs with
  | [] => (None, c)
  | src :: rest =>
      match rawCopy_Scan src c with
      | (Some err, c1) => (Some err, c1)
      | (None, c1) => rawCopy_feed rest c1
      end
  end.

(** [for i := range values { convertAssign(dest[i], values[i]) }] *)
Fixpoint assign_loop {Dest} {CV : Converter Dest} (dest : list Dest)
  (values : list Value) : option error :=
  match values with
  | [] => None
  | src :: values' =>
      match dest with
      | [] => Some index_out_of_range
      | d :: dest' =>
          match convertAssign d src with
          | Some err => Some err
          | None => assign_loop dest' values'
          end
      end
  end.

(** The variables the [onClose] function literal of [Driver.Query]
    captures besides the driver: [opts.key] and [opts.ttl]. *)
Record onCloseFunc : Type := mkOnClose {
  captured_key : Key;
  captured_ttl : Duration
}.

(** [recorder] *)
Record recorder (T : Type) : Type := mkRecorder {
  r_ColumnScanner : T;
  r_values : list (list Value);
  r_columns : list string;
  r_done : bool;
  r_onClose : onCloseFunc
}.

Section Recorder.
Context {T : Type} {CS : ColumnScanner T}.

Definition with_ColumnScanner (s : T) (r : recorder T) : recorder T :=
  mkRecorder s (r_values r) (r_columns r) (r_done r) (r_onClose r).

(** [recorder.Next] *)
Definition recorder_Next (r : recorder T) : bool * recorder T :=
  let (hasNext, s1) := cs_Next (r_ColumnScanner r) in
  (hasNext,
   mkRecorder s1 (r_values r) (r_columns r) (negb hasNext) (r_onClose r)).

(** [recorder.Scan] *)
Definition recorder_Scan {Dest} {CV : Converter Dest} (dest : list Dest)
  (r : recorder T) : option error * recorder T :=
  let values := repeat VNil (List.length dest) in
  let c := mkRawCopy values 0 in
  match cs_Scan (List.length dest) (r_ColumnScanner r) with
  | (Err err, s1) => (Some err, with_ColumnScanner s1 r)
  | (Ok srcs, s1) =>
      match rawCopy_feed srcs c with
      | (Some err, _) => (Some err, with_ColumnScanner s1 r)
      | (None, c1) =>
          let values := rc_array c1 in
          match assign_loop dest values with
          | Some err => (Some err, with_ColumnScanner s1 r)
          | None =>
              (None,
               mkRecorder s1 (r_values r ++ [values]) (r_columns r)
                 (r_done r) (r_onClose r))
          end
      end
  end.

(** [recorder.Columns] *)
Definition recorder_Columns (r : recorder T)
  : result (list string) * recorder T :=
  match cs_Columns (r_ColumnScanner r) with
  | (Err err, s1) => (Err err, with_ColumnScanner s1 r)
  | (Ok columns, s1) =>
      (Ok columns,
       mkRecorder s1 (r_values r) columns (r_done r) (r_onClose r))
  end.
End Recorder.

(** [repeater] *)
Record repeater : Type := mkRepeater {
  rp_columns : list string;
  rp_values : list (list Value)
}.

(** [repeater.Close] *)
Definition repeater_Close (r : repeater) : option error := None.
(** [repeater.ColumnTypes] *)
Definition repeater_ColumnTypes (r : repeater) : option error :=
  Some (Errorf "entcache.ColumnTypes is not supported").
(** [repeater.Columns] *)
Definition repeater_Columns (r : repeater) : result (list string) :=
  Ok (rp_columns r).
(** [repeater.Err] *)
Definition repeater_Err (r : repeater) : option error := None.
(** [repeater.Next] *)
Definition repeater_Next (r : repeater) : bool :=
  (0 <? List.length (rp_values r))%nat.
(** [repeater.NextResultSet] *)
Definition repeater_NextResultSet (r : repeater) : bool :=
  (0 <? List.length (rp_values r))%nat.

(** [repeater.Scan] *)
Definition repeater_Scan {Dest} {CV : Converter Dest} (dest : list Dest)
  (r : repeater) : option error * repeater :=
  if negb (repeater_Next r) then (Some ErrNoRows, r)
  else
    match assign_loop dest (hd [] (rp_values r)) with
    | Some err => (Some err, r)
    | None => (None, mkRepeater (rp_columns r) (tl (rp_values r)))
    end.

(** The dynamic types of the [ColumnScanner] field of [sql.Rows]: unset,
    the stream of the wrapped driver, a repeater, a recorder. *)
Inductive scanner (T : Type) : Type :=
| ScNil
| ScStream (s : T)
| ScRepeater (r : repeater)
| ScRecorder (r : recorder T).
Arguments ScNil {T}.
Arguments ScRepeater {T} r.

(** [sql.Rows] *)
Record Rows (T : Type) : Type := mkRows { rows_ColumnScanner : scanner T }.

(** The argument [v any] of [Query]: a [*sql.Rows], or a value of another
    type. *)
Inductive any_v (T : Type) : Type :=
| VRows (vr : Rows T)
| VOther (tyname : string).
Arguments VOther {T} tyname.

(** The argument [args any] of [Query]: a [[]any], or a value of another
    type. *)
Inductive any_args : Type :=
| ArgsSlice (argv : list Value)
| ArgsOther (tyname : string).

(* ================================================================== *)
(** * The driver *)
(* ================================================================== *)

(** [dialect.Driver], the wrapped driver, with state [DB] and streams [T].
    [drv_Query] is [Query] with a [*sql.Rows] for [v]: on success the driver
    stores the stream it opened in [v.ColumnScanner], on failure it leaves
    [v] alone. [drv_Query_other] is [Query] with a [v] of another type. The
    two context-aware methods are optional (the decorator asserts for
    them). *)
Class dialectDriver (DB T : Type) : Type := {
  drv_Query : string -> any_args -> DB -> result T * DB;
  drv_Query_other : string -> any_args -> string -> DB -> option error * DB;
  drv_ExecContext : option (string -> list Value -> DB -> option error * DB);
  drv_QueryContext :
    option (string -> list Value -> DB -> result (Rows T) * DB)
}.

(** [Stats] *)
Record Stats : Type := mkStats {
  Gets : Z;
  Hits : Z;
  Errors : Z
}.

(** [atomic.AddUint64(&x, delta)] *)
Definition AddUint64 (x delta : Z) : Z := (x + delta) mod 2 ^ 64.

(** The calls the driver makes to its collaborators, in the order they are
    made: the hasher, the three methods of the store, the wrapped driver,
    the log sink. *)
Inductive Event : Type :=
| EvHash (query : string) (args : list Value)
| EvGet (k : Key)
| EvAdd (k : Key) (e : Entry) (ttl : Duration)
| EvDel (k : Key)
| EvQuery (query : string)
| EvLog (k : Key) (err : error).

(** [Driver] with its [Options]: the wrapped driver, [TTL], [Cache], [Hash],
    [Log] ([true] when a sink is set) and [stats]; [calls] records the calls
    made so far. *)
Record Driver (S DB : Type) : Type := mkDriver {
  d_Driver : DB;
  TTL : Duration;
  Cache : S;
  Hash : string -> list Value -> result Key;
  Log : bool;
  stats : Stats;
  calls : list Event
}.

(** hashstructure, as the default hasher uses it: [hashstructure.Hash] of
    the struct [{Q string; A []any}] with [FormatV2] and no options. The
    library is outside the package; [hs_State] stands for whatever it
    reads besides the value it is given, so that whether its hash is a
    function of that value is a property of an instance and is not built
    into the type. *)
Class Hashstructure : Type := {
  hs_State : Type;
  hashstructure_Hash : hs_State -> string -> list Value -> result Z
}.

(** The library's hash is a function of the value it is given. *)
Definition deterministic (HS : Hashstructure) : Prop :=
  forall (w1 w2 : hs_State) (query : string) (args : list Value),
    hashstructure_Hash w1 query args = hashstructure_Hash w2 query args.

(** [DefaultHash], called while the library is in state [w]. *)
Definition DefaultHash {HS : Hashstructure} (w : hs_State) (query : string)
  (args : list Value) : result Key :=
  match hashstructure_Hash w query args with
  | Err err => Err err
  | Ok key => Ok (KUint64 key)
  end.

(** [NewDriver], with the options applied. *)
Definition NewDriver {S DB} (drv : DB) (ttl : Duration) (cache : S)
  (hash : string -> list Value -> result Key) (log : bool) : Driver S DB :=
  mkDriver drv ttl cache hash log (mkStats 0 0 0) [].

(** [ctxOptions] *)
Record ctxOptions : Type := mkCtxOptions {
  skip : bool;
  evict : bool;
  key : Key;
  ttl : Duration
}.

Section DriverOps.
Context {S DB T : Type}.
Context {AGD : AddGetDeleter S} {CS : ColumnScanner T}
        {DD : dialectDriver DB T}.

Definition with_calls (ev : Event) (d : Driver S DB) : Driver S DB :=
  mkDriver (d_Driver d) (TTL d) (Cache d) (Hash d) (Log d) (stats d)
    (calls d ++ [ev]).

Definition with_Cache (c : S) (d : Driver S DB) : Driver S DB :=
  mkDriver (d_Driver d) (TTL d) c (Hash d) (Log d) (stats d) (calls d).

Definition with_Driver (db : DB) (d : Driver S DB) : Driver S DB :=
  mkDriver db (TTL d) (Cache d) (Hash d) (Log d) (stats d) (calls d).

Definition with_stats (s : Stats) (d : Driver S DB) : Driver S DB :=
  mkDriver (d_Driver d) (TTL d) (Cache d) (Hash d) (Log d) s (calls d).

(** [d.Hash(query, args)] *)
Definition call_Hash (query : string) (args : list Value) (d : Driver S DB)
  : result Key * Driver S DB :=
  (Hash d query args, with_calls (EvHash query args) d).

(** [d.Cache.Get(ctx, k)] *)
Definition call_Get (now : Time) (k : Key) (d : Driver S DB)
  : result Entry * Driver S DB :=
  let (r, c1) := Get now k (Cache d) in
  (r, with_calls (EvGet k) (with_Cache c1 d)).

(** [d.Cache.Add(ctx, k, e, ttl)] *)
Definition call_Add (now : Time) (k : Key) (e : Entry) (ttl : Duration)
  (d : Driver S DB) : option error * Driver S DB :=
  let (r, c1) := Add now k e ttl (Cache d) in
  (r, with_calls (EvAdd k e ttl) (with_Cache c1 d)).

(** [d.Cache.Del(ctx, k)] *)
Definition call_Del (now : Time) (k : Key) (d : Driver S DB)
  : option error * Driver S DB :=
  let (r, c1) := Del now k (Cache d) in
  (r, with_calls (EvDel k) (with_Cache c1 d)).

(** [d.Driver.Query(ctx, query, args, vr)] with [vr] a [*sql.Rows]: the
    stream the wrapped driver opened, or its error. *)
Definition call_Query_rows (query : string) (args : any_args)
  (d : Driver S DB) : result T * Driver S DB :=
  let (r, db1) := drv_Query query args (d_Driver d) in
  (r, with_calls (EvQuery query) (with_Driver db1 d)).

(** [d.Driver.Query(ctx, query, args, v)] *)
Definition call_Query (query : string) (args : any_args) (v : any_v T)
  (d : Driver S DB) : option error * any_v T * Driver S DB :=
  match v with
  | VRows vr =>
      match call_Query_rows query args d with
      | (Err err, d1) => (Some err, VRows vr, d1)
      | (Ok s, d1) => (None, VRows (mkRows (ScStream s)), d1)
      end
  | VOther tyname =>
      match drv_Query_other query args tyname (d_Driver d) with
      | (err, db1) =>
          (err, VOther tyname,
           with_calls (EvQuery query) (with_Driver db1 d))
      end
  end.

(** [d.Log(...)] *)
Definition call_Log (k : Key) (err : error) (d : Driver S DB)
  : Driver S DB :=
  with_calls (EvLog k err) d.

Definition add_Gets (d : Driver S DB) : Driver S DB :=
  with_stats (mkStats (AddUint64 (Gets (stats d)) 1) (Hits (stats d))
                (Errors (stats d))) d.

Definition add_Hits (d : Driver S DB) : Driver S DB :=
  with_stats (mkStats (Gets (stats d)) (AddUint64 (Hits (stats d)) 1)
                (Errors (stats d))) d.

Definition add_Errors (d : Driver S DB) : Driver S DB :=
  with_stats (mkStats (Gets (stats d)) (Hits (stats d))
                (AddUint64 (Errors (stats d)) 1)) d.

(** [Driver.optionsFromContext]; [ctx] is what the context holds under
    [ctxOptionsKey]. *)
Definition optionsFromContext (now : Time) (ctx : option ctxOptions)
  (query : string) (args : list Value) (d : Driver S DB)
  : ctxOptions * option error * Driver S DB :=
  let opts :=
    match ctx with
    | Some c => c
    | None => mkCtxOptions false false KNil 0
    end in
  let hashed :=
    if Key_is_nil (key opts) then
      match call_Hash query args d with
      | (Err _, d1) => (opts, Some errSkip, d1)
      | (Ok k, d1) =>
          (mkCtxOptions (skip opts) (evict opts) k (ttl opts), None, d1)
      end
    else (opts, None, d) in
  match hashed with
  | (opts, Some err, d1) => (opts, Some err, d1)
  | (opts, None, d1) =>
      let opts :=
        if ttl opts =? 0
        then mkCtxOptions (skip opts) (evict opts) (key opts) (TTL d1)
        else opts in
      let evicted :=
        if evict opts then call_Del now (key opts) d1 else (None, d1) in
      match evicted with
      | (Some err, d2) => (opts, Some err, d2)
      | (None, d2) =>
          if skip opts then (opts, Some errSkip, d2) else (opts, None, d2)
      end
  end.

(** The calls [optionsFromContext] makes before it evicts: the hasher
    is called when the context carries no key. *)
Definition hash_calls (c : ctxOptions) (query : string)
  (argv : list Value) : list Event :=
  if Key_is_nil (key c) then [EvHash query argv] else [].

(** [Driver.Query] *)
Definition Query (now : Time) (ctx : option ctxOptions) (query : string)
  (args : any_args) (v : any_v T) (d : Driver S DB)
  : option error * any_v T * Driver S DB :=
  if negb (prefix "SELECT" query) && negb (prefix "select" query)
  then call_Query query args v d
  else
    match v with
    | VOther _ =>
        (Some (Errorf "entcache: invalid type. expect *sql.Rows"), v, d)
    | VRows vr =>
        match args with
        | ArgsOther _ =>
            (Some (Errorf
               "entcache: invalid type. expect []interface{} for args"),
             v, d)
        | ArgsSlice argv =>
            match optionsFromContext now ctx query argv d with
            | (_, Some _, d1) => call_Query query args v d1
            | (opts, None, d1) =>
                let d2 := add_Gets d1 in
                match call_Get now (key opts) d2 with
                | (Ok e, d3) =>
                    let d4 := add_Hits d3 in
                    (None,
                     VRows (mkRows
                              (ScRepeater
                                 (mkRepeater (Columns e) (Values e)))),
                     d4)
                | (Err err, d3) =>
                    if is_ErrNotFound err then
                      match call_Query_rows query args d3 with
                      | (Err err, d4) => (Some err, VRows vr, d4)
                      | (Ok s, d4) =>
                          (None,
                           VRows (mkRows
                                    (ScRecorder
                                       (mkRecorder s [] [] false
                                          (mkOnClose (key opts)
                                             (ttl opts))))),
                           d4)
                      end
                    else call_Query query args v d3
                end
            end
        end
    end.

(** The [onClose] function literal of [Driver.Query]. *)
Definition onClose (f : onCloseFunc) (now : Time) (columns : list string)
  (values : list (list Value)) (d : Driver S DB) : Driver S DB :=
  match call_Add now (captured_key f) (mkEntry columns values)
          (captured_ttl f) d with
  | (Some err, d1) =>
      if Log d1
      then call_Log (captured_key f) err (add_Errors d1)
      else d1
  | (None, d1) => d1
  end.

(** [recorder.Close]; [now] is the instant of the call. *)
Definition recorder_Close (now : Time) (r : recorder T) (d : Driver S DB)
  : option error * recorder T * Driver S DB :=
  match cs_Close (r_ColumnScanner r) with
  | (Some err, s1) => (Some err, with_ColumnScanner s1 r, d)
  | (None, s1) =>
      let r1 := with_ColumnScanner s1 r in
      match cs_Err (r_ColumnScanner r1) with
      | None =>
          (None, r1, onClose (r_onClose r1) now (r_columns r1)
                       (r_values r1) d)
      | Some _ =>
          if r_done r1
          then (None, r1, onClose (r_onClose r1) now (r_columns r1)
                            (r_values r1) d)
          else (None, r1, d)
      end
  end.

(** [Driver.Stats] *)
Definition Driver_Stats (d : Driver S DB) : Stats :=
  mkStats (Gets (stats d)) (Hits (stats d)) (Errors (stats d)).

(** [Driver.QueryContext] *)
Definition QueryContext (query : string) (args : list Value)
  (d : Driver S DB) : result (Rows T) * Driver S DB :=
  match drv_QueryContext with
  | None => (Err (Errorf "Driver.QueryContext is not supported"), d)
  | Some f =>
      let (r, db1) := f query args (d_Driver d) in (r, with_Driver db1 d)
  end.

(** [Driver.ExecContext] *)
Definition ExecContext (query : string) (args : list Value)
  (d : Driver S DB) : option error * Driver S DB :=
  match drv_ExecContext with
  | None => (Some (Errorf "Driver.ExecContext is not supported"), d)
  | Some f =>
      let (r, db1) := f query args (d_Driver d) in (r, with_Driver db1 d)
  end.
End DriverOps.

(* ================================================================== *)
(** * Implementations to run the model on *)
(* ================================================================== *)

(** A codec that knows the encodings listed in a table, and fails on
    anything else. *)
Fixpoint table_encode (table : list (wire * list byte)) (w : wire)
  : result (list byte) :=
  match table with
  | [] => Err (Errorf "gob: type not registered")
  | (w', buf) :: rest =>
      if wire_eq_dec w w' then Ok buf else table_encode rest w
  end.

Fixpoint table_decode (table : list (wire * list byte)) (buf : list byte)
  : result wire :=
  match table with
  | [] => Err (Errorf "gob: unexpected EOF")
  | (w, buf') :: rest =>
      if list_eq_dec byte_eq_dec buf buf' then Ok w else table_decode rest buf
  end.

Definition tableGob (table : list (wire * list byte)) : Gob := {|
  gob_Encode := table_encode table;
  gob_Decode := table_decode table
|}.

(** A stream over rows held in memory. [sr_broken] is the error the stream
    meets once the rows it could read are consumed ([None]: a clean end). *)
Record sliceRows : Type := mkSliceRows {
  sr_columns : list string;
  sr_pending : list (list Value);
  sr_current : option (list Value);
  sr_broken : option error;
  sr_lasterr : option error;
  sr_closed : bool
}.

Definition newSliceRows (columns : list string) (rows : list (list Value))
  (broken : option error) : sliceRows :=
  mkSliceRows columns rows None broken None false.

Definition sliceRows_Next (s : sliceRows) : bool * sliceRows :=
  if sr_closed s then (false, s)
  else
    match sr_pending s with
    | [] =>
        (false,
         mkSliceRows (sr_columns s) [] None (sr_broken s) (sr_broken s) true)
    | row :: rest =>
        (true,
         mkSliceRows (sr_columns s) rest (Some row) (sr_broken s)
           (sr_lasterr s) false)
    end.

Definition sliceRows_Scan (n : nat) (s : sliceRows)
  : result (list Value) * sliceRows :=
  if sr_closed s then (Err (Errorf "sql: Rows are closed"), s)
  else
    match sr_current s with
    | None => (Err (Errorf "sql: Scan called without calling Next"), s)
    | Some row =>
        if (List.length row =? n)%nat then (Ok row, s)
        else (Err (Errorf "sql: wrong number of destination arguments"), s)
    end.

Definition sliceRows_Columns (s : sliceRows)
  : result (list string) * sliceRows :=
  if sr_closed s then (Err (Errorf "sql: Rows are closed"), s)
  else (Ok (sr_columns s), s).

Definition sliceRows_Close (s : sliceRows) : option error * sliceRows :=
  (None,
   mkSliceRows (sr_columns s) (sr_pending s) None (sr_broken s)
     (sr_lasterr s) true).

#[export] Instance sliceRows_ColumnScanner : ColumnScanner sliceRows := {
  cs_Close := sliceRows_Close;
  cs_Columns := sliceRows_Columns;
  cs_Err := sr_lasterr;
  cs_Next := sliceRows_Next;
  cs_Scan := sliceRows_Scan
}.

(** A wrapped driver that answers from a queue of expected queries, each
    with the stream to return or the error to fail with. *)
Definition expectations : Type := list (string * result sliceRows).

Definition expect_Query (query : string) (args : any_args)
  (db : expectations) : result sliceRows * expectations :=
  match db with
  | [] => (Err (Errorf "all expectations were already fulfilled"), db)
  | (q, r) :: rest =>
      if String.eqb q query then (r, rest)
      else (Err (Errorf "query was not expected"), db)
  end.

#[export] Instance expectations_dialectDriver
  : dialectDriver expectations sliceRows := {
  drv_Query := expect_Query;
  drv_Query_other := fun _ _ _ db =>
    (Some (Errorf "dialect/sql: invalid type. expect *sql.Rows"), db);
  drv_ExecContext := None;
  drv_QueryContext := None
}.

(** A key/value service held in memory; when [kv_down] is set every
    command fails with that error. *)
Record kvService : Type := mkKv {
  kv_data : list (string * list byte);
  kv_down : option error
}.

Fixpoint kv_find (key : string) (l : list (string * list byte))
  : option (list byte) :=
  match l with
  | [] => None
  | (k, v) :: rest => if String.eqb key k then Some v else kv_find key rest
  end.

Fixpoint kv_remove (key : string) (l : list (string * list byte))
  : list (string * list byte) :=
  match l with
  | [] => []
  | (k, v) :: rest =>
      if String.eqb key k then kv_remove key rest
      else (k, v) :: kv_remove key rest
  end.

#[export] Instance kvService_Cmdable : Cmdable kvService := {
  redis_Set := fun key buf _ r =>
    match kv_down r with
    | Some err => (Some err, r)
    | None => (None, mkKv ((key, buf) :: kv_remove key (kv_data r)) None)
    end;
  redis_Get := fun key r =>
    match kv_down r with
    | Some err => (Err err, r)
    | None =>
        match kv_find key (kv_data r) with
        | None => (Err redis_Nil, r)
        | Some buf => (Ok buf, r)
        end
    end;
  redis_Del := fun key r =>
    match kv_down r with
    | Some err => (Some err, r)
    | None => (None, mkKv (kv_remove key (kv_data r)) None)
    end
}.

(** Destinations to convert into: one that takes any value (a pointer to
    an [interface{}]) and one that takes a [bool] and rejects anything
    else. *)
Inductive dest : Type :=
| DestAny
| DestBool.

#[export] Instance dest_Converter : Converter dest := {
  convertAssign := fun d src =>
    match d, src with
    | DestAny, _ => None
    | DestBool, VBool _ => None
    | DestBool, _ => Some (Errorf "sql: Scan error: unsupported conversion")
    end
}.

(** The hasher of the package's Redis test: the constant key [1]. *)
Definition constHash (query : string) (args : list Value) : result Key :=
  Ok (KInt 1).

(* ================================================================== *)
(** * Callers and operations *)
(* ================================================================== *)

Section Callers.
Context {S DB T Dest : Type}.
Context {AGD : AddGetDeleter S} {CS : ColumnScanner T}
        {DD : dialectDriver DB T}.
Context {CV : Converter Dest}.

(** [for rows.Next() { rows.Scan(dest...) }] on a recorder, for at most
    [fuel] rows. *)
Fixpoint recorder_read (fuel : nat) (dest : list Dest) (r : recorder T)
  : option error * recorder T :=
  match fuel with
  | O => (None, r)
  | Datatypes.S fuel' =>
      let (hasNext, r1) := recorder_Next r in
      if hasNext then
        match recorder_Scan dest r1 with
        | (Some err, r2) => (Some err, r2)
        | (None, r2) => recorder_read fuel' dest r2
        end
      else (None, r1)
  end.

(** The same loop on a repeater; the rows read are collected. *)
Fixpoint repeater_read (fuel : nat) (dest : list Dest) (r : repeater)
  (seen : list (list Value)) : option error * repeater * list (list Value) :=
  match fuel with
  | O => (None, r, seen)
  | Datatypes.S fuel' =>
      if repeater_Next r then
        match repeater_Scan dest r with
        | (Some err, r1) => (Some err, r1, seen)
        | (None, r1) =>
            repeater_read fuel' dest r1 (seen ++ [hd [] (rp_values r)])
        end
      else (None, r, seen)
  end.

(** The operations of the driver: [Query], the [Close] of a recorder it
    handed out (which runs [onClose]), [Stats], and the two passthroughs. *)
Inductive Op : Type :=
| OpQuery (now : Time) (ctx : option ctxOptions) (query : string)
    (args : any_args) (v : any_v T)
| OpClose (now : Time) (r : recorder T)
| OpStats
| OpQueryContext (query : string) (args : list Value)
| OpExecContext (query : string) (args : list Value).

Definition step (op : Op) (d : Driver S DB) : Driver S DB :=
  match op with
  | OpQuery now ctx query args v => snd (Query now ctx query args v d)
  | OpClose now r => snd (recorder_Close now r d)
  | OpStats => d
  | OpQueryContext query args => snd (QueryContext query args d)
  | OpExecContext query args => snd (ExecContext query args d)
  end.

(** The driver after a sequence of operations. *)
Definition run (ops : list Op) (d : Driver S DB) : Driver S DB :=
  fold_left (fun d op => step op d) ops d.
End Callers.
Arguments Op : clear implicits.

(** Inputs the model is run on below. *)
Definition entry1 : Entry :=
  mkEntry ["active"%string] [[VBool true]; [VBool false]].

Definition bytes1 : list byte := [x01; x02].

(** What a caller that never asks for the columns leaves recorded of
    [entry1]. *)
Definition entry1_values : Entry :=
  mkEntry [] [[VBool true]; [VBool false]].

Definition gob1 : Gob :=
  tableGob [(mkWire (Columns entry1) (Values entry1), bytes1);
            (mkWire [] (Values entry1), [x01; x03])].

Definition refused : error := Errorf "dial tcp: connection refused".

Definition kv_empty : kvService := mkKv [] None.

Definition kv_unreachable : kvService := mkKv [] (Some refused).

Definition kv_garbled : kvService := mkKv [("1"%string, [xff])] None.

(** A local tier or a remote tier, with the codec [gob1]. *)
Definition tier1 : Type := (LRU + Redis kvService)%type.

Definition tier1_AddGetDeleter : AddGetDeleter tier1 :=
  @sum_AddGetDeleter LRU (Redis kvService) (@LRU_AddGetDeleter gob1)
    (@Redis_AddGetDeleter kvService kvService_Cmdable gob1).

(** An LRU tier that holds [entry1] under the key [1]. *)
Definition lru_with1 : LRU := lru.Add (KInt 1) (ptrEntry entry1) (NewLRU 0).

(** The statements and streams of the package's tests. *)
Definition select_active : string := "SELECT active FROM users".

Definition rows_active : sliceRows :=
  newSliceRows ["active"%string] [[VBool true]; [VBool false]] None.

Definition select_id : string := "SELECT id FROM users".

Definition rows_id : sliceRows :=
  newSliceRows ["id"%string] [[VInt64 1]; [VInt64 2]; [VInt64 3]] None.

Definition insert_returning : string :=
  "INSERT INTO users DEFAULT VALUES RETURNING id".

Definition rows_inserted : sliceRows :=
  newSliceRows ["id"%string] [[VInt64 1]] None.

(** [&sql.Rows{}] *)
Definition no_rows : any_v sliceRows := VRows (mkRows ScNil).

(** The first row of [rows_id] alone, with no column names, and a codec
    that knows it. *)
Definition first_row_only : Entry := mkEntry [] [[VInt64 1]].

Definition gob2 : Gob := tableGob [(mkWire [] [[VInt64 1]], [x03])].

(** A driver over an unbounded LRU tier, no sink. *)
Definition driver_lru : Driver LRU expectations :=
  NewDriver [(select_id, Ok rows_id)] 0 (NewLRU 0) constHash false.

(** A driver over the levels of the Redis test (an LRU tier that keeps
    nothing, then a Redis tier), the service being unreachable. *)
Definition levels_AddGetDeleter : AddGetDeleter (multiLevel tier1) :=
  @multiLevel_AddGetDeleter tier1 tier1_AddGetDeleter.

Definition driver_levels (log : bool)
  : Driver (multiLevel tier1) expectations :=
  NewDriver [(select_active, Ok rows_active)] 0
    (mkMultiLevel [inl (NewLRU (-1)); inr (NewRedis kv_unreachable)])
    constHash log.



(** A driver whose wrapped driver expects the insert statement, with a
    hasher that fails when called. *)
Definition failing_Hash (query : string) (args : list Value) : result Key :=
  Err (Errorf "Driver.Query should not be called for INSERT statements").

Definition driver_insert : Driver LRU expectations :=
  NewDriver [(insert_returning, Ok rows_inserted)] 0 (NewLRU 0)
    failing_Hash false.

(** A driver whose hasher fails and whose wrapped driver expects the
    statement of the package's tests. *)
Definition driver_hash_fails : Driver LRU expectations :=
  NewDriver [(select_id, Ok rows_id)] 0 (NewLRU 0) failing_Hash false.

(** [entcache.Evict(ctx)] on a context without options. *)
Definition ctx_Evict : ctxOptions := mkCtxOptions true true KNil 0.

(** A recorder whose stream has been read to its end: both rows of
    [rows_active] are recorded. *)
Definition recorder_read_through : recorder sliceRows :=
  mkRecorder (mkSliceRows ["active"%string] [] None None None true)
    [[VBool true]; [VBool false]] [] true (mkOnClose (KInt 1) 0).

(** A driver over an LRU tier that already holds [entry1] under the key
    of every statement, the wrapped driver expecting no query. *)
Definition driver_warm : Driver LRU expectations :=
  NewDriver [] 0 lru_with1 constHash false.

(** The same store over a wrapped driver that expects the statement. *)
Definition driver_warm_expecting : Driver LRU expectations :=
  NewDriver [(select_active, Ok rows_active)] 0 lru_with1 constHash false.

(** [entcache.WithKey(ctx, "other")] on a context without options. *)
Definition ctx_other_key : ctxOptions :=
  mkCtxOptions false false (KString "other") 0.

Definition query_hit : Op sliceRows :=
  OpQuery 0 None select_active (ArgsSlice []) no_rows.

Definition query_miss : Op sliceRows :=
  OpQuery 0 (Some ctx_other_key) select_active (ArgsSlice []) no_rows.

(** A hash of the statement and its arguments to run the default hasher
    on. *)
Definition lengthHash : Hashstructure := {|
  hs_State := Z;
  hashstructure_Hash := fun _ query args =>
    Ok (Z.of_nat (String.length query) + Z.of_nat (List.length args))
|}.

(** A hash that mixes a seed of the library into the same value. *)
Definition seededHash : Hashstructure := {|
  hs_State := Z;
  hashstructure_Hash := fun seed query args =>
    Ok ((seed + Z.of_nat (String.length query)
         + Z.of_nat (List.length args)) mod 2 ^ 64)
|}.


Definition driver_default_warm : Driver LRU expectations :=
  NewDriver [] 60 lru_with1 (DefaultHash (HS := lengthHash) 1) true.


(** What one operation can do to the counters: nothing, a lookup that
    misses, a lookup that hits, a failed write. *)
Definition stats_moves (s s' : Stats) : Prop :=
  s' = s
  \/ s' = mkStats (AddUint64 (Gets s) 1) (Hits s) (Errors s)
  \/ s' = mkStats (AddUint64 (Gets s) 1) (AddUint64 (Hits s) 1) (Errors s)
  \/ s' = mkStats (Gets s) (Hits s) (AddUint64 (Errors s) 1).

(** The counters stay within [n] and [Hits] within [Gets]. *)
Definition within (n : Z) (s : Stats) : Prop :=
  0 <= Hits s /\ Hits s <= Gets s /\ Gets s <= n
  /\ 0 <= Errors s /\ Errors s <= n.

(* ================================================================== *)
(** * Options of a call, contexts, and the choice of the store *)
(* ================================================================== *)

(** [opts] as [optionsFromContext] starts from it: the record the context
    points to, or the zero value. *)
Definition ctx_or_zero (ctx : option ctxOptions) : ctxOptions :=
  match ctx with
  | Some c => c
  | None => mkCtxOptions false false KNil 0
  end.

(** [opts.ttl] as it is resolved: the TTL of the call, or the driver's
    when the call gives none. *)
Definition resolved_ttl {S DB : Type} (c : ctxOptions) (d : Driver S DB)
  : Duration :=
  if ttl c =? 0 then TTL d else ttl c.

(** The driver with the calls of the key resolution recorded. *)
Definition after_hash {S DB : Type} (c : ctxOptions) (query : string)
  (argv : list Value) (d : Driver S DB) : Driver S DB :=
  mkDriver (d_Driver d) (TTL d) (Cache d) (Hash d) (Log d) (stats d)
    (calls d ++ hash_calls c query argv).

(** [context.Context], as the package uses it: the store held under
    [ctxKey], and the pointer to the [ctxOptions] held under
    [ctxOptionsKey]. The options records live in a heap, a pointer is an
    index into it, so that contexts that hold the same pointer share the
    record. *)
Record Context (C : Type) : Type := mkContext {
  value_ctxKey : option C;
  value_ctxOptionsKey : option nat
}.

Definition heap : Type := list ctxOptions.

(** [context.Background()] *)
Definition Background {C : Type} : Context C := mkContext None None.

(** [ctx.Value(ctxOptionsKey)] asserted to a pointer to [ctxOptions] and
    dereferenced: the options the driver reads for a call made under
    [ctx]. *)
Definition load {C : Type} (h : heap) (ctx : Context C)
  : option ctxOptions :=
  match value_ctxOptionsKey ctx with
  | Some p => nth_error h p
  | None => None
  end.

(** An assignment through the pointer [p]. *)
Definition modify (p : nat) (f : ctxOptions -> ctxOptions) (h : heap)
  : heap :=
  match nth_error h p with
  | Some c => set_at p (f c) h
  | None => h
  end.

(** [context.WithValue(ctx, ctxOptionsKey, &c)]: the record is allocated
    at the end of the heap. *)
Definition with_options {C : Type} (ctx : Context C) (c : ctxOptions)
  (h : heap) : Context C * heap :=
  (mkContext (value_ctxKey ctx) (Some (List.length h)), h ++ [c]).

(** [Skip] *)
Definition Skip {C : Type} (ctx : Context C) (h : heap) : Context C * heap :=
  match value_ctxOptionsKey ctx with
  | None => with_options ctx (mkCtxOptions true false KNil 0) h
  | Some p =>
      (ctx, modify p (fun c => mkCtxOptions true (evict c) (key c) (ttl c)) h)
  end.

(** [Evict] *)
Definition Evict {C : Type} (ctx : Context C) (h : heap) : Context C * heap :=
  match value_ctxOptionsKey ctx with
  | None => with_options ctx (mkCtxOptions true true KNil 0) h
  | Some p =>
      (ctx, modify p (fun c => mkCtxOptions true true (key c) (ttl c)) h)
  end.

(** [WithKey] *)
Definition WithKey {C : Type} (ctx : Context C) (k : Key) (h : heap)
  : Context C * heap :=
  match value_ctxOptionsKey ctx with
  | None => with_options ctx (mkCtxOptions false false k 0) h
  | Some p =>
      (ctx, modify p (fun c => mkCtxOptions (skip c) (evict c) k (ttl c)) h)
  end.

(** [WithTTL] *)
Definition WithTTL {C : Type} (ctx : Context C) (t : Duration) (h : heap)
  : Context C * heap :=
  match value_ctxOptionsKey ctx with
  | None => with_options ctx (mkCtxOptions false false KNil t) h
  | Some p =>
      (ctx, modify p (fun c => mkCtxOptions (skip c) (evict c) (key c) t) h)
  end.

(** The four helpers, to speak of any one of them. *)
Inductive helper : Type :=
| HSkip
| HEvict
| HWithKey (k : Key)
| HWithTTL (t : Duration).

Definition apply_helper {C : Type} (f : helper) (ctx : Context C) (h : heap)
  : Context C * heap :=
  match f with
  | HSkip => Skip ctx h
  | HEvict => Evict ctx h
  | HWithKey k => WithKey ctx k h
  | HWithTTL t => WithTTL ctx t h
  end.

(** Every pointer a context holds is allocated. *)
Definition allocated {C : Type} (h : heap) (ctx : Context C) : Prop :=
  match value_ctxOptionsKey ctx with
  | Some p => (p < List.length h)%nat
  | None => True
  end.

(** The records the helpers build: eviction comes with skipping. *)
Definition evict_skips (c : ctxOptions) : Prop :=
  evict c = true -> skip c = true.

(** The store [NewContext] and [Levels] choose for the tiers they are
    given: the one tier itself, or the composer over the tiers. *)
Definition choose {S : Type} (levels : list S) : S + multiLevel S :=
  match levels with
  | [l] => inl l
  | _ => inr (mkMultiLevel levels)
  end.

(** [Levels]: the store the option installs in [Options.Cache]. *)
Definition Levels {S : Type} (levels : list S) : S + multiLevel S :=
  choose levels.

(** [NewContext]: with no tier the store is an unbounded LRU tier. *)
Definition NewContext {C S : Type} (ctx : Context C) (levels : list S)
  : Context (LRU + (S + multiLevel S)) :=
  let cache :=
    match levels with
    | [] => inl (NewLRU 0)
    | _ => inr (choose levels)
    end in
  mkContext (Some cache) (value_ctxOptionsKey ctx).

(** [FromContext] *)
Definition FromContext {C : Type} (ctx : Context C) : option C :=
  value_ctxKey ctx.

(** [contextLevel]: the tier holds nothing itself; the store is the one of
    the context of the call, which is the state threaded here. *)
Section ContextLevel.
Context {C : Type} {AGD : AddGetDeleter C}.

(** [contextLevel.Get] *)
Definition contextLevel_Get (now : Time) (k : Key) (ctx : Context C)
  : result Entry * Context C :=
  match FromContext ctx with
  | None => (Err ErrNotFound, ctx)
  | Some c =>
      let (r, c1) := Get now k c in
      (r, mkContext (Some c1) (value_ctxOptionsKey ctx))
  end.

(** [contextLevel.Add] *)
Definition contextLevel_Add (now : Time) (k : Key) (e : Entry)
  (ttl : Duration) (ctx : Context C) : option error * Context C :=
  match FromContext ctx with
  | None => (None, ctx)
  | Some c =>
      let (r, c1) := Add now k e ttl c in
      (r, mkContext (Some c1) (value_ctxOptionsKey ctx))
  end.

(** [contextLevel.Del] *)
Definition contextLevel_Del (now : Time) (k : Key) (ctx : Context C)
  : option error * Context C :=
  match FromContext ctx with
  | None => (None, ctx)
  | Some c =>
      let (r, c1) := Del now k c in
      (r, mkContext (Some c1) (value_ctxOptionsKey ctx))
  end.
End ContextLevel.

#[export] Instance contextLevel_AddGetDeleter {C} {AGD : AddGetDeleter C}
  : AddGetDeleter (Context C) := {
  Del := contextLevel_Del;
  Add := contextLevel_Add;
  Get := contextLevel_Get
}.

(** A store in a state in which it holds nothing and takes nothing: every
    lookup misses, every write and delete succeeds, and the state stays. *)
Definition inert {S : Type} {AGD : AddGetDeleter S} (s : S) : Prop :=
  (forall now k, Get now k s = (Err ErrNotFound, s))
  /\ (forall now k e ttl, Add now k e ttl s = (None, s))
  /\ (forall now k, Del now k s = (None, s)).

(** The keys of the store are distinct and a positive capacity bounds
    their number. *)
Definition lru_bounded {A : Type} (c : lru.Cache A) : Prop :=
  NoDup (map fst (lru.ll c))
  /\ (0 < lru.MaxEntries c -> lru.Len c <= lru.MaxEntries c).



(** [entcache.WithKey(ctx, "cache-key")] on a context without options. *)
Definition ctx_key : ctxOptions :=
  mkCtxOptions false false (KString "cache-key") 0.

(** A recorder over the stream of [rows_id] after a first [Next]. *)
Definition recorder_on_first_row : recorder sliceRows :=
  mkRecorder
    (mkSliceRows ["id"%string] [[VInt64 2]; [VInt64 3]] (Some [VInt64 1])
       None None false)
    [] [] false (mkOnClose (KInt 1) 0).

(** A recorder over a stream that broke before its end. *)
Definition recorder_interrupted : recorder sliceRows :=
  mkRecorder
    (mkSliceRows ["id"%string] [[VInt64 3]] (Some [VInt64 2]) None
       (Some refused) false)
    [[VInt64 1]] [] false (mkOnClose (KInt 1) 0).

(** A stream whose connection is lost: every method fails. *)
Inductive lostRows : Type := Lost.

#[export] Instance lostRows_ColumnScanner : ColumnScanner lostRows := {
  cs_Close := fun s => (Some refused, s);
  cs_Columns := fun s => (Err refused, s);
  cs_Err := fun _ => Some refused;
  cs_Next := fun s => (false, s);
  cs_Scan := fun _ s => (Err refused, s)
}.

Definition recorder_lost : recorder lostRows :=
  mkRecorder Lost [[VInt64 1]] [] false (mkOnClose (KInt 1) 0).

(** An LRU tier of capacity one that is full. *)
Definition lru_full1 : LRU := lru.Add (KInt 1) (ptrEntry entry1) (NewLRU 1).

(** A codec whose decoder knows no type. *)
Definition gob_no_decoder : Gob := {|
  gob_Encode := fun _ => Ok [x00];
  gob_Decode := fun _ => Err (Errorf "gob: type not registered")
|}.

(** What a helper does to the record it is applied to. *)
Definition effect (f : helper) (c : ctxOptions) : ctxOptions :=
  match f with
  | HSkip => mkCtxOptions true (evict c) (key c) (ttl c)
  | HEvict => mkCtxOptions true true (key c) (ttl c)
  | HWithKey k => mkCtxOptions (skip c) (evict c) k (ttl c)
  | HWithTTL t => mkCtxOptions (skip c) (evict c) (key c) t
  end.

(** Helpers applied one after the other, each to the context the former
    returned. *)
Fixpoint apply_helpers {C : Type} (fs : list helper) (ctx : Context C)
  (h : heap) : Context C * heap :=
  match fs with
  | [] => (ctx, h)
  | f :: fs' =>
      let (ctx1, h1) := apply_helper f ctx h in
      apply_helpers fs' ctx1 h1
  end.

(** A driver in context-level mode whose calls come with a context that
    carries no store. *)
Definition context_AddGetDeleter : AddGetDeleter (Context LRU) :=
  @contextLevel_AddGetDeleter LRU (@LRU_AddGetDeleter gob1).

Definition driver_plain_context : Driver (Context LRU) expectations :=
  NewDriver [(select_active, Ok rows_active)] 0 Background constHash true.

(* ================================================================== *)
(** * Facts about the bounded store *)
(* ================================================================== *)

Module lruFacts.
Section Facts.
Context {A : Type}.
Implicit Types (k : Key) (v : A) (c : lru.Cache A).

Lemma Key_eqb_refl k : Key_eqb k k = true.
Proof. unfold Key_eqb. destruct (Key_eq_dec k k); congruence. Qed.

Lemma find_unlink k (l : list (Key * A)) : lru.find k (lru.unlink k l) = None.
Proof.
  induction l as [|[k' v'] l IH]; simpl; [reflexivity|].
  destruct (Key_eqb k k') eqn:E; simpl; [assumption|].
  rewrite E. assumption.
Qed.

Lemma find_front k v (l : list (Key * A)) : lru.find k ((k, v) :: l) = Some v.
Proof. simpl. now rewrite Key_eqb_refl. Qed.

Lemma peek_Get_hit k v c :
  lru.peek k c = Some v ->
  exists c', lru.Get k c = (Some v, c') /\ lru.peek k c' = Some v.
Proof.
  unfold lru.peek, lru.Get. intros ->.
  eexists. split; [reflexivity|]. simpl. now rewrite Key_eqb_refl.
Qed.

Lemma peek_Get_miss k c :
  lru.peek k c = None -> lru.Get k c = (None, c).
Proof. unfold lru.peek, lru.Get. now intros ->. Qed.

Lemma peek_Remove k c : lru.peek k (lru.Remove k c) = None.
Proof. unfold lru.peek, lru.Remove. simpl. apply find_unlink. Qed.

Lemma peek_Add_cases k v c :
  lru.peek k (lru.Add k v c) = Some v \/ lru.peek k (lru.Add k v c) = None.
Proof.
  unfold lru.peek, lru.Add.
  destruct (lru.find k (lru.ll c)) eqn:F.
  - left. simpl. now rewrite Key_eqb_refl.
  - cbv zeta.
    destruct (negb _ && _).
    + unfold lru.RemoveOldest. cbn [lru.ll lru.MaxEntries].
      destruct (lru.ll c) as [|p l].
      * right. reflexivity.
      * left. change (removelast ((k, v) :: p :: l))
          with ((k, v) :: removelast (p :: l)).
        apply find_front.
    + left. apply find_front.
Qed.

Lemma peek_Add k v c :
  0 <= lru.MaxEntries c -> lru.peek k (lru.Add k v c) = Some v.
Proof.
  intros Hcap. unfold lru.peek, lru.Add.
  destruct (lru.find k (lru.ll c)) eqn:F.
  - simpl. now rewrite Key_eqb_refl.
  - cbv zeta.
    destruct (negb _ && _) eqn:E.
    + unfold lru.RemoveOldest. cbn [lru.ll lru.MaxEntries] in *.
      destruct (lru.ll c) as [|p l].
      * exfalso. unfold lru.Len in E. cbn in E.
        apply andb_prop in E. destruct E as [E1 E2].
        apply negb_true_iff, Z.eqb_neq in E1.
        apply Z.ltb_lt in E2. lia.
      * change (removelast ((k, v) :: p :: l))
          with ((k, v) :: removelast (p :: l)).
        apply find_front.
    + apply find_front.
Qed.
End Facts.
End lruFacts.

(* ================================================================== *)
(** * The entry codec *)
(* ================================================================== *)

Section CodecFacts.
Context {G : Gob}.

(** The codec passes the two fields of the entry to the coder in the
    order [C], [V] and reads them back from the same fields: whenever the
    coder gives back the struct it was given, the codec gives back the
    entry. *)
Lemma codec_copy (e : Entry) (buf : list byte) :
  gob_Encode (mkWire (Columns e) (Values e)) = Ok buf ->
  gob_Decode buf = Ok (mkWire (Columns e) (Values e)) ->
  MarshalBinary e = Ok buf
  /\ UnmarshalBinary buf Entry_zero = (None, e).
Proof.
  intros He Hd. unfold MarshalBinary, UnmarshalBinary.
  rewrite He, Hd. cbn. now destruct e.
Qed.

Lemma MarshalBinary_error (e : Entry) (err : error) :
  gob_Encode (mkWire (Columns e) (Values e)) = Err err ->
  MarshalBinary e = Err err.
Proof. intros He. unfold MarshalBinary. now rewrite He. Qed.

Lemma UnmarshalBinary_error (buf : list byte) (e : Entry) (err : error) :
  gob_Decode buf = Err err -> UnmarshalBinary buf e = (Some err, e).
Proof. intros Hd. unfold UnmarshalBinary. now rewrite Hd. Qed.
End CodecFacts.

(* ================================================================== *)
(** * The LRU tier *)
(* ================================================================== *)

Section LRUTier.
Context {G : Gob}.

Lemma LRU_Get_bare (now : Time) (k : Key) (e : Entry) (l : LRU) :
  lru.peek k l = Some (ptrEntry e) ->
  exists l', LRU_Get now k l = (Ok e, l')
             /\ lru.peek k l' = Some (ptrEntry e).
Proof.
  intros P. destruct (lruFacts.peek_Get_hit _ _ P) as (l' & Hg & P').
  exists l'. unfold LRU_Get. rewrite Hg. auto.
Qed.

Lemma LRU_Get_missing (now : Time) (k : Key) (l : LRU) :
  lru.peek k l = None -> LRU_Get now k l = (Err ErrNotFound, l).
Proof.
  intros P. unfold LRU_Get. now rewrite (lruFacts.peek_Get_miss _ _ P).
Qed.

Lemma LRU_Get_fresh (now : Time) (k : Key) (w : entry) (l : LRU) :
  lru.peek k l = Some (ptr_entry w) -> now < expiry w ->
  exists l', LRU_Get now k l = (Ok (entry_Entry w), l')
             /\ lru.peek k l' = Some (ptr_entry w).
Proof.
  intros P Hlt. destruct (lruFacts.peek_Get_hit _ _ P) as (l' & Hg & P').
  exists l'. unfold LRU_Get, Time_Before. rewrite Hg.
  apply Z.ltb_lt in Hlt. rewrite Hlt. auto.
Qed.

Lemma LRU_Get_expired (now : Time) (k : Key) (w : entry) (l : LRU) :
  lru.peek k l = Some (ptr_entry w) -> expiry w <= now ->
  exists l', LRU_Get now k l = (Err ErrNotFound, l')
             /\ lru.peek k l' = None.
Proof.
  intros P Hle. destruct (lruFacts.peek_Get_hit _ _ P) as (l' & Hg & P').
  exists (lru.Remove k l'). unfold LRU_Get, Time_Before. rewrite Hg.
  apply Z.ltb_ge in Hle. rewrite Hle.
  split; [reflexivity | apply lruFacts.peek_Remove].
Qed.

Lemma LRU_Add_ok (now : Time) (k : Key) (e ne : Entry) (buf : list byte)
  (ttl : Duration) (l : LRU) :
  MarshalBinary e = Ok buf ->
  UnmarshalBinary buf Entry_zero = (None, ne) ->
  LRU_Add now k e ttl l =
    (None,
     lru.Add k (if ttl =? 0 then ptrEntry ne
                else ptr_entry (mk_entry ne (now + ttl))) l).
Proof.
  intros M U. unfold LRU_Add, Time_Add. rewrite M, U.
  now destruct (ttl =? 0).
Qed.

(** C4. The LRU tier, for an [Add] that the codec lets through
    ([ne] is the copy of [e] the codec produces): with [ttl = 0] the
    bare copy is stored, and a bare entry held under a key is returned
    by [Get] and stays there; with [ttl <> 0] a wrapper with expiry
    [now + ttl] is stored; [Get] of a key the store does not hold is
    "not found"; [Get] of a wrapper returns the inner entry while
    [now < expiry], and otherwise removes it and is "not found"; hence
    after an [Add] with a negative [ttl] a lookup at any later instant
    is "not found". *)
Theorem LRU_tier_semantics :
  forall (now : Time) (k : Key) (e ne : Entry) (buf : list byte)
         (ttl : Duration) (l : LRU),
    MarshalBinary e = Ok buf ->
    UnmarshalBinary buf Entry_zero = (None, ne) ->
    (ttl = 0 ->
       LRU_Add now k e ttl l = (None, lru.Add k (ptrEntry ne) l)
       /\ (0 <= lru.MaxEntries l ->
           forall now', exists l',
             LRU_Get now' k (snd (LRU_Add now k e ttl l)) = (Ok ne, l')
             /\ lru.peek k l' = Some (ptrEntry ne)))
    /\ (forall (l1 : LRU) (e1 : Entry) (now' : Time),
          lru.peek k l1 = Some (ptrEntry e1) ->
          exists l', LRU_Get now' k l1 = (Ok e1, l')
                     /\ lru.peek k l' = Some (ptrEntry e1))
    /\ (ttl <> 0 ->
          LRU_Add now k e ttl l =
            (None, lru.Add k (ptr_entry (mk_entry ne (now + ttl))) l))
    /\ (forall (l1 : LRU) (now' : Time),
          lru.peek k l1 = None ->
          LRU_Get now' k l1 = (Err ErrNotFound, l1))
    /\ (forall (l1 : LRU) (w : entry) (now' : Time),
          lru.peek k l1 = Some (ptr_entry w) ->
          (now' < expiry w ->
             exists l', LRU_Get now' k l1 = (Ok (entry_Entry w), l')
                        /\ lru.peek k l' = Some (ptr_entry w))
          /\ (expiry w <= now' ->
             exists l', LRU_Get now' k l1 = (Err ErrNotFound, l')
                        /\ lru.peek k l' = None))
    /\ (ttl < 0 ->
          forall now', now <= now' ->
            exists l',
              LRU_Get now' k (snd (LRU_Add now k e ttl l))
                = (Err ErrNotFound, l')
              /\ lru.peek k l' = None).
Proof.
  intros now k e ne buf ttl l M U.
  pose proof (@LRU_Add_ok now k e ne buf ttl l M U) as A.
  split; [|split; [|split; [|split; [|split]]]].
  - intros ->. split.
    + exact A.
    + intros Hcap now'. rewrite A. cbn [snd Z.eqb].
      apply LRU_Get_bare. now apply lruFacts.peek_Add.
  - intros l1 e1 now' P. now apply LRU_Get_bare.
  - intros Hne. rewrite A. apply Z.eqb_neq in Hne. now rewrite Hne.
  - intros l1 now' P. now apply LRU_Get_missing.
  - intros l1 w now' P. split; intros Hc.
    + exact (@LRU_Get_fresh now' k w l1 P Hc).
    + exact (@LRU_Get_expired now' k w l1 P Hc).
  - intros Hneg now' Hlater. rewrite A.
    assert ((ttl =? 0) = false) as -> by (apply Z.eqb_neq; lia).
    cbn [snd].
    destruct (lruFacts.peek_Add_cases k
                (ptr_entry (mk_entry ne (now + ttl))) l) as [P | P].
    + apply (@LRU_Get_expired now' k _ _ P). simpl. lia.
    + exists (lru.Add k (ptr_entry (mk_entry ne (now + ttl))) l).
      split; [now apply LRU_Get_missing | assumption].
Qed.
End LRUTier.

(* ================================================================== *)
(** * The multi-level composer *)
(* ================================================================== *)

Section MultiLevelFacts.
Context {S : Type} {AGD : AddGetDeleter S}.
Variables (now : Time) (k : Key) (e : Entry) (ttl : Duration).

Lemma Get_loop_past (pre rest : list S) :
  Forall (Get_misses now k) pre ->
  multiLevel_Get_loop now k (pre ++ rest) =
    (fst (multiLevel_Get_loop now k rest),
     map (after_Get now k) pre ++ snd (multiLevel_Get_loop now k rest)).
Proof.
  induction 1 as [|l pre Hl _ IH]; simpl.
  - now destruct (multiLevel_Get_loop now k rest).
  - unfold Get_misses in Hl. unfold after_Get at 1.
    destruct (Get now k l) as [r l1]. simpl in Hl. subst r. simpl.
    now rewrite IH.
Qed.

Lemma Add_loop_past (pre rest : list S) :
  Forall (Add_succeeds now k e ttl) pre ->
  multiLevel_Add_loop now k e ttl (pre ++ rest) =
    (fst (multiLevel_Add_loop now k e ttl rest),
     map (after_Add now k e ttl) pre
       ++ snd (multiLevel_Add_loop now k e ttl rest)).
Proof.
  induction 1 as [|l pre Hl _ IH]; simpl.
  - now destruct (multiLevel_Add_loop now k e ttl rest).
  - unfold Add_succeeds in Hl. unfold after_Add at 1.
    destruct (Add now k e ttl l) as [r l1]. simpl in Hl. subst r.
    now rewrite IH.
Qed.

Lemma Del_loop_past (pre rest : list S) :
  Forall (Del_succeeds now k) pre ->
  multiLevel_Del_loop now k (pre ++ rest) =
    (fst (multiLevel_Del_loop now k rest),
     map (after_Del now k) pre ++ snd (multiLevel_Del_loop now k rest)).
Proof.
  induction 1 as [|l pre Hl _ IH]; simpl.
  - now destruct (multiLevel_Del_loop now k rest).
  - unfold Del_succeeds in Hl. unfold after_Del at 1.
    destruct (Del now k l) as [r l1]. simpl in Hl. subst r.
    now rewrite IH.
Qed.

(** C5. The multi-level composer over any list of tiers. [Get]: when
    the tiers of [pre] miss, a hit of the next tier [t] is returned, an
    error of [t] other than "not found" is returned, and in both cases
    the tiers [post] after [t] are left as they were; when every tier
    misses the result is "not found". [Add] and [Del]: when the tiers of
    [pre] succeed, an error of the next tier [t] is returned and the
    tiers after [t] are left as they were; when every tier succeeds the
    result is success and every tier has been applied. *)
Theorem multiLevel_semantics :
  forall (pre post : list S) (t : S),
    (Forall (Get_misses now k) pre ->
       (forall en, fst (Get now k t) = Ok en ->
          multiLevel_Get now k (mkMultiLevel (pre ++ t :: post)) =
            (Ok en,
             mkMultiLevel
               (map (after_Get now k) pre ++ after_Get now k t :: post)))
       /\ (forall err, fst (Get now k t) = Err err -> err <> ErrNotFound ->
             multiLevel_Get now k (mkMultiLevel (pre ++ t :: post)) =
               (Err err,
                mkMultiLevel
                  (map (after_Get now k) pre ++ after_Get now k t :: post)))
       /\ multiLevel_Get now k (mkMultiLevel pre) =
            (Err ErrNotFound, mkMultiLevel (map (after_Get now k) pre)))
    /\ (Forall (Add_succeeds now k e ttl) pre ->
          (forall err, fst (Add now k e ttl t) = Some err ->
             multiLevel_Add now k e ttl (mkMultiLevel (pre ++ t :: post)) =
               (Some err,
                mkMultiLevel
                  (map (after_Add now k e ttl) pre
                     ++ after_Add now k e ttl t :: post)))
          /\ multiLevel_Add now k e ttl (mkMultiLevel pre) =
               (None, mkMultiLevel (map (after_Add now k e ttl) pre)))
    /\ (Forall (Del_succeeds now k) pre ->
          (forall err, fst (Del now k t) = Some err ->
             multiLevel_Del now k (mkMultiLevel (pre ++ t :: post)) =
               (Some err,
                mkMultiLevel
                  (map (after_Del now k) pre ++ after_Del now k t :: post)))
          /\ multiLevel_Del now k (mkMultiLevel pre) =
               (None, mkMultiLevel (map (after_Del now k) pre))).
Proof.
  intros pre post t. split; [|split].
  - intros Hpre. split; [|split].
    + intros en Ht. unfold multiLevel_Get. cbn [levels].
      rewrite (Get_loop_past (t :: post) Hpre).
      cbn [multiLevel_Get_loop]. unfold after_Get.
      destruct (Get now k t) as [r t1]. cbn in Ht. subst r.
      reflexivity.
    + intros err Ht Hne. unfold multiLevel_Get. cbn [levels].
      rewrite (Get_loop_past (t :: post) Hpre).
      cbn [multiLevel_Get_loop]. unfold after_Get.
      destruct (Get now k t) as [r t1]. cbn in Ht. subst r.
      destruct err; try reflexivity. congruence.
    + unfold multiLevel_Get. cbn [levels].
      rewrite <- (app_nil_r pre) at 1.
      rewrite (Get_loop_past [] Hpre). simpl. now rewrite app_nil_r.
  - intros Hpre. split.
    + intros err Ht. unfold multiLevel_Add. cbn [levels].
      rewrite (Add_loop_past (t :: post) Hpre).
      cbn [multiLevel_Add_loop]. unfold after_Add.
      destruct (Add now k e ttl t) as [r t1]. cbn in Ht. subst r.
      reflexivity.
    + unfold multiLevel_Add. cbn [levels].
      rewrite <- (app_nil_r pre) at 1.
      rewrite (Add_loop_past [] Hpre). simpl. now rewrite app_nil_r.
  - intros Hpre. split.
    + intros err Ht. unfold multiLevel_Del. cbn [levels].
      rewrite (Del_loop_past (t :: post) Hpre).
      cbn [multiLevel_Del_loop]. unfold after_Del.
      destruct (Del now k t) as [r t1]. cbn in Ht. subst r.
      reflexivity.
    + unfold multiLevel_Del. cbn [levels].
      rewrite <- (app_nil_r pre) at 1.
      rewrite (Del_loop_past [] Hpre). simpl. now rewrite app_nil_r.
Qed.
End MultiLevelFacts.

(** The composer run on three tiers: a hit of the second tier, a decoding
    error of the second tier, a failing [Add] and a failing [Del] of the
    second tier. *)
Lemma multiLevel_semantics_witness :
  @multiLevel_Get tier1 tier1_AddGetDeleter 0 (KInt 1)
     (mkMultiLevel [inl (NewLRU (-1)); inl lru_with1; inl (NewLRU 0)])
   = (Ok entry1,
      mkMultiLevel [inl (NewLRU (-1)); inl lru_with1; inl (NewLRU 0)])
  /\ @multiLevel_Get tier1 tier1_AddGetDeleter 0 (KInt 1)
       (mkMultiLevel
          [inl (NewLRU (-1)); inr (NewRedis kv_garbled); inl lru_with1])
     = (Err (Errorf "gob: unexpected EOF"),
        mkMultiLevel
          [inl (NewLRU (-1)); inr (NewRedis kv_garbled); inl lru_with1])
  /\ @multiLevel_Add tier1 tier1_AddGetDeleter 0 (KInt 1) entry1 0
       (mkMultiLevel
          [inl (NewLRU (-1)); inr (NewRedis kv_unreachable); inl (NewLRU 0)])
     = (Some refused,
        mkMultiLevel
          [inl (NewLRU (-1)); inr (NewRedis kv_unreachable); inl (NewLRU 0)])
  /\ @multiLevel_Del tier1 tier1_AddGetDeleter 0 (KInt 1)
       (mkMultiLevel
          [inl (NewLRU (-1)); inr (NewRedis kv_unreachable); inl lru_with1])
     = (Some refused,
        mkMultiLevel
          [inl (NewLRU (-1)); inr (NewRedis kv_unreachable); inl lru_with1]).
Proof.
  pose (pre := [@inl LRU (Redis kvService) (NewLRU (-1))]).
  assert (Forall (@Get_misses tier1 tier1_AddGetDeleter 0 (KInt 1)) pre)
    as Hmiss by (constructor; [reflexivity | constructor]).
  assert (Forall (@Add_succeeds tier1 tier1_AddGetDeleter 0 (KInt 1) entry1 0)
            pre)
    as Hadd by (constructor; [reflexivity | constructor]).
  assert (Forall (@Del_succeeds tier1 tier1_AddGetDeleter 0 (KInt 1)) pre)
    as Hdel by (constructor; [reflexivity | constructor]).
  split; [|split; [|split]].
  - destruct (@multiLevel_semantics tier1 tier1_AddGetDeleter 0 (KInt 1)
                entry1 0 pre [inl (NewLRU 0)] (inl lru_with1))
      as [HG _].
    destruct (HG Hmiss) as [Hhit _]. exact (Hhit entry1 eq_refl).
  - destruct (@multiLevel_semantics tier1 tier1_AddGetDeleter 0 (KInt 1)
                entry1 0 pre [inl lru_with1] (inr (NewRedis kv_garbled)))
      as [HG _].
    destruct (HG Hmiss) as [_ [Herr _]].
    refine (Herr (Errorf "gob: unexpected EOF") eq_refl _). discriminate.
  - destruct (@multiLevel_semantics tier1 tier1_AddGetDeleter 0 (KInt 1)
                entry1 0 pre [inl (NewLRU 0)]
                (inr (NewRedis kv_unreachable)))
      as [_ [HA _]].
    destruct (HA Hadd) as [Herr _]. exact (Herr refused eq_refl).
  - destruct (@multiLevel_semantics tier1 tier1_AddGetDeleter 0 (KInt 1)
                entry1 0 pre [inl lru_with1]
                (inr (NewRedis kv_unreachable)))
      as [_ [_ HD]].
    destruct (HD Hdel) as [Herr _]. exact (Herr refused eq_refl).
Defined.

(** The LRU tier run with the codec [gob1]: an [Add] with [ttl = -1] at
    instant 100 and a lookup at instant 101. *)
Lemma LRU_tier_semantics_witness :
  @MarshalBinary gob1 entry1 = Ok bytes1
  /\ @UnmarshalBinary gob1 bytes1 Entry_zero = (None, entry1)
  /\ exists l',
       LRU_Get 101 (KInt 1)
         (snd (@LRU_Add gob1 100 (KInt 1) entry1 (-1) (NewLRU 0)))
       = (Err ErrNotFound, l')
       /\ lru.peek (KInt 1) l' = None.
Proof.
  split; [reflexivity|]. split; [reflexivity|].
  destruct (@LRU_tier_semantics gob1 100 (KInt 1) entry1 entry1 bytes1 (-1)
              (NewLRU 0) eq_refl eq_refl)
    as (_ & _ & _ & _ & _ & Hneg).
  apply Hneg; lia.
Defined.

(* ================================================================== *)
(** * The Redis tier *)
(* ================================================================== *)

Section RedisTier.
Context {R : Type} {CM : Cmdable R} {G : Gob}.

(** C3 (as amended). The Redis tier. An empty textual key makes [Add]
    and [Del] do nothing and [Get] miss, without a call to the service.
    Otherwise an error of the service is returned to the caller of [Add]
    and of [Del]; on [Get] every error of the service, whatever it is,
    and an empty value are turned into "not found", and what is returned
    as such is the error of the decoder. *)
Theorem Redis_tier_errors :
  forall (k : Key) (e : Entry) (ttl : Duration) (r : Redis R),
    (Sprint k = ""%string ->
       Redis_Add k e ttl r = (None, r)
       /\ Redis_Del k r = (None, r)
       /\ Redis_Get k r = (Err ErrNotFound, r))
    /\ (Sprint k <> ""%string ->
          (forall buf err c1,
             MarshalBinary e = Ok buf ->
             redis_Set (Sprint k) buf ttl (c r) = (Some err, c1) ->
             Redis_Add k e ttl r = (Some err, mkRedis c1))
          /\ (forall err c1,
                redis_Del (Sprint k) (c r) = (Some err, c1) ->
                Redis_Del k r = (Some err, mkRedis c1))
          /\ (forall err c1,
                redis_Get (Sprint k) (c r) = (Err err, c1) ->
                Redis_Get k r = (Err ErrNotFound, mkRedis c1))
          /\ (forall c1,
                redis_Get (Sprint k) (c r) = (Ok [], c1) ->
                Redis_Get k r = (Err ErrNotFound, mkRedis c1))
          /\ (forall buf err c1,
                redis_Get (Sprint k) (c r) = (Ok buf, c1) ->
                buf <> [] ->
                gob_Decode buf = Err err ->
                Redis_Get k r = (Err err, mkRedis c1))).
Proof.
  intros k e ttl r. split.
  - intros E. unfold Redis_Add, Redis_Del, Redis_Get. rewrite E. simpl.
    repeat split.
  - intros NE. apply String.eqb_neq in NE.
    unfold Redis_Add, Redis_Del, Redis_Get. rewrite NE.
    split; [|split; [|split; [|split]]].
    + intros buf err c1 M St. now rewrite M, St.
    + intros err c1 D. now rewrite D.
    + intros err c1 Hg. now rewrite Hg.
    + intros c1 Hg. now rewrite Hg.
    + intros buf err c1 Hg NB D. rewrite Hg.
      destruct buf as [|b buf]; [congruence|]. cbn [List.length Nat.eqb].
      unfold UnmarshalBinary. now rewrite D.
Qed.
End RedisTier.

(** The Redis tier run against a service that holds nothing under an empty
    key, one that refuses connections, and one that holds bytes the codec
    rejects. *)
Lemma Redis_tier_errors_witness :
  @Redis_Add kvService kvService_Cmdable gob1 (KString "") entry1 0
      (NewRedis kv_empty) = (None, NewRedis kv_empty)
  /\ @Redis_Add kvService kvService_Cmdable gob1 (KInt 1) entry1 0
       (NewRedis kv_unreachable) = (Some refused, NewRedis kv_unreachable)
  /\ @Redis_Del kvService kvService_Cmdable (KInt 1)
       (NewRedis kv_unreachable) = (Some refused, NewRedis kv_unreachable)
  /\ @Redis_Get kvService kvService_Cmdable gob1 (KInt 1)
       (NewRedis kv_unreachable) = (Err ErrNotFound, NewRedis kv_unreachable)
  /\ @Redis_Get kvService kvService_Cmdable gob1 (KInt 1)
       (NewRedis kv_garbled)
     = (Err (Errorf "gob: unexpected EOF"), NewRedis kv_garbled).
Proof.
  assert (Sprint (KInt 1) <> ""%string) as NE by discriminate.
  split; [|split; [|split; [|split]]].
  - destruct (@Redis_tier_errors kvService kvService_Cmdable gob1
                (KString "") entry1 0 (NewRedis kv_empty)) as [HE _].
    exact (proj1 (HE eq_refl)).
  - destruct (@Redis_tier_errors kvService kvService_Cmdable gob1
                (KInt 1) entry1 0 (NewRedis kv_unreachable)) as [_ HN].
    destruct (HN NE) as [HA _].
    exact (HA bytes1 refused kv_unreachable eq_refl eq_refl).
  - destruct (@Redis_tier_errors kvService kvService_Cmdable gob1
                (KInt 1) entry1 0 (NewRedis kv_unreachable)) as [_ HN].
    destruct (HN NE) as [_ [HD _]].
    exact (HD refused kv_unreachable eq_refl).
  - destruct (@Redis_tier_errors kvService kvService_Cmdable gob1
                (KInt 1) entry1 0 (NewRedis kv_unreachable)) as [_ HN].
    destruct (HN NE) as [_ [_ [HG _]]].
    exact (HG refused kv_unreachable eq_refl).
  - destruct (@Redis_tier_errors kvService kvService_Cmdable gob1
                (KInt 1) entry1 0 (NewRedis kv_garbled)) as [_ HN].
    destruct (HN NE) as [_ [_ [_ [_ HG]]]].
    refine (HG [xff] (Errorf "gob: unexpected EOF") kv_garbled eq_refl _
              eq_refl).
    discriminate.
Defined.

(** The claim as the specification words it fails on [Get]: the service
    refuses the connection, which is not its "no such key" reply, and the
    caller of [Get] is told "not found". *)
Lemma Redis_Get_hides_service_error :
  fst (redis_Get (Sprint (KInt 1)) kv_unreachable) = Err refused
  /\ refused <> redis_Nil
  /\ fst (@Redis_Get kvService kvService_Cmdable gob1 (KInt 1)
            (NewRedis kv_unreachable)) = Err ErrNotFound
  /\ fst (@Redis_Get kvService kvService_Cmdable gob1 (KInt 1)
            (NewRedis kv_unreachable)) <> Err refused.
Proof.
  repeat split; discriminate.
Qed.

(* ================================================================== *)
(** * The driver *)
(* ================================================================== *)

Section DriverFacts.
Context {S DB T : Type}.
Context {AGD : AddGetDeleter S} {CS : ColumnScanner T}
        {DD : dialectDriver DB T}.
Implicit Types (d : Driver S DB) (v : any_v T).

(** A forwarded call changes the state of the wrapped driver and nothing
    else. *)
Lemma call_Query_frame (query : string) (args : any_args) v d :
  let d' := snd (call_Query query args v d) in
  stats d' = stats d /\ Cache d' = Cache d
  /\ calls d' = calls d ++ [EvQuery query]
  /\ Hash d' = Hash d /\ Log d' = Log d /\ TTL d' = TTL d.
Proof.
  unfold call_Query, call_Query_rows. destruct v as [vr | tyname].
  - destruct (drv_Query query args (d_Driver d)) as [[s | err] db1];
      cbn; auto 10.
  - destruct (drv_Query_other query args tyname (d_Driver d)) as [err db1];
      cbn; auto 10.
Qed.

(** A forwarded call returns what the wrapped driver returns: with a
    [*sql.Rows] for [v], its error with [v] left alone, or no error with
    the stream it opened set in [v]; the wrapped driver is left in the
    state in which its [Query] left it. *)
Lemma call_Query_rows_returns (query : string) (args : any_args)
  (vr : Rows T) d (r : result T) (db1 : DB) :
  drv_Query query args (d_Driver d) = (r, db1) ->
  call_Query query args (VRows vr) d
  = (match r with Err err => Some err | Ok _ => None end,
     match r with
     | Err _ => VRows vr
     | Ok s => VRows (mkRows (ScStream s))
     end,
     mkDriver db1 (TTL d) (Cache d) (Hash d) (Log d) (stats d)
       (calls d ++ [EvQuery query])).
Proof.
  intros H. unfold call_Query, call_Query_rows. rewrite H.
  destruct r; reflexivity.
Qed.

Lemma call_Query_other_returns (query : string) (args : any_args)
  (tyname : string) d (err : option error) (db1 : DB) :
  drv_Query_other query args tyname (d_Driver d) = (err, db1) ->
  call_Query query args (VOther tyname) d
  = (err, VOther tyname,
     mkDriver db1 (TTL d) (Cache d) (Hash d) (Log d) (stats d)
       (calls d ++ [EvQuery query])).
Proof.
  intros H. unfold call_Query. now rewrite H.
Qed.

(** C6. A statement that begins neither with [SELECT] nor with [select]
    is forwarded to the wrapped driver, whatever the options of the call
    and the types of [args] and [v] are. [Query] returns what the wrapped
    driver's [Query] returns on the same statement and arguments: with a
    [*sql.Rows] for [v], its error with [v] left alone, or no error with
    the stream it opened in [v]; with a [v] of another type, its result.
    The wrapped driver is left as its [Query] left it. The call to it is
    the only call made (the hasher and the store are not called), and the
    store and the counters are as before. *)
Theorem Query_forwards_other_statements :
  forall (now : Time) (ctx : option ctxOptions) (query : string)
         (args : any_args) v d,
    prefix "SELECT" query = false ->
    prefix "select" query = false ->
    Query now ctx query args v d = call_Query query args v d
    /\ (forall (vr : Rows T) (r : result T) (db1 : DB),
          v = VRows vr ->
          drv_Query query args (d_Driver d) = (r, db1) ->
          Query now ctx query args v d
          = (match r with Err err => Some err | Ok _ => None end,
             match r with
             | Err _ => VRows vr
             | Ok s => VRows (mkRows (ScStream s))
             end,
             mkDriver db1 (TTL d) (Cache d) (Hash d) (Log d) (stats d)
               (calls d ++ [EvQuery query])))
    /\ (forall (tyname : string) (err : option error) (db1 : DB),
          v = VOther tyname ->
          drv_Query_other query args tyname (d_Driver d) = (err, db1) ->
          Query now ctx query args v d
          = (err, VOther tyname,
             mkDriver db1 (TTL d) (Cache d) (Hash d) (Log d) (stats d)
               (calls d ++ [EvQuery query])))
    /\ calls (snd (Query now ctx query args v d))
       = calls d ++ [EvQuery query]
    /\ Cache (snd (Query now ctx query args v d)) = Cache d
    /\ stats (snd (Query now ctx query args v d)) = stats d.
Proof.
  intros now ctx query args v d HS Hs.
  assert (Query now ctx query args v d = call_Query query args v d) as E.
  { unfold Query. now rewrite HS, Hs. }
  rewrite E.
  destruct (call_Query_frame query args v d) as (Hst & Hc & Hcalls & _).
  split; [reflexivity|]. split; [|split; [|auto]].
  - intros vr r db1 -> Hq. now apply call_Query_rows_returns.
  - intros tyname err db1 -> Hq. now apply call_Query_other_returns.
Qed.

(** The miss path: when the options are resolved, the store answers "not
    found" and the wrapped driver opens a stream, [Query] hands out a fresh
    recorder over that stream whose [onClose] holds the key and the TTL of
    the call. *)
Lemma Query_miss (now : Time) (ctx : option ctxOptions) (query : string)
  (argv : list Value) (vr : Rows T) d (opts : ctxOptions) d1 (c1 : S)
  (s : T) (db1 : DB) :
  prefix "SELECT" query = true \/ prefix "select" query = true ->
  optionsFromContext now ctx query argv d = (opts, None, d1) ->
  Get now (key opts) (Cache d1) = (Err ErrNotFound, c1) ->
  drv_Query query (ArgsSlice argv) (d_Driver d1) = (Ok s, db1) ->
  fst (Query now ctx query (ArgsSlice argv) (VRows vr) d)
  = (None,
     VRows (mkRows (ScRecorder (mkRecorder s [] [] false
                                  (mkOnClose (key opts) (ttl opts)))))).
Proof.
  intros Hsel Hopts Hget Hq. unfold Query.
  assert (negb (prefix "SELECT" query) && negb (prefix "select" query)
          = false) as ->.
  { destruct Hsel as [-> | ->]; cbn; [reflexivity|]. apply andb_false_r. }
  rewrite Hopts. unfold call_Get. cbn [Cache add_Gets with_stats].
  rewrite Hget. cbn [is_ErrNotFound].
  unfold call_Query_rows, with_calls, with_Cache, with_Driver, add_Gets,
    with_stats.
  cbn [d_Driver]. now rewrite Hq.
Qed.

End DriverFacts.

(** A statement of the insert shape sent through [Query], on a driver
    whose hasher fails when called: the caller gets the stream of the
    wrapped driver, whose expectation is consumed; the wrapped driver is
    the only collaborator called, and the counters stay at zero. *)
Lemma Query_forwards_other_statements_witness :
  Query (AGD := @LRU_AddGetDeleter gob2) 0 None insert_returning
     (ArgsSlice []) no_rows driver_insert
   = (None, VRows (mkRows (ScStream rows_inserted)),
      mkDriver [] 0 (NewLRU 0) failing_Hash false (mkStats 0 0 0)
        [EvQuery insert_returning])
  /\ calls (snd (Query (AGD := @LRU_AddGetDeleter gob2) 0 None
                   insert_returning (ArgsSlice []) no_rows driver_insert))
     = [EvQuery insert_returning]
  /\ stats (snd (Query (AGD := @LRU_AddGetDeleter gob2) 0 None
                   insert_returning (ArgsSlice []) no_rows driver_insert))
     = mkStats 0 0 0.
Proof.
  destruct (@Query_forwards_other_statements _ _ _
              (@LRU_AddGetDeleter gob2) _ 0 None insert_returning
              (ArgsSlice []) no_rows driver_insert eq_refl eq_refl)
    as (_ & Hrows & _ & Hcalls & _ & Hstats).
  split; [|split; [exact Hcalls | exact Hstats]].
  exact (Hrows (mkRows ScNil) (Ok rows_inserted) [] eq_refl eq_refl).
Defined.


(* ================================================================== *)
(** * The recorder *)
(* ================================================================== *)

Section RecorderFacts.
Context {S DB T : Type}.
Context {AGD : AddGetDeleter S} {CS : ColumnScanner T}
        {DD : dialectDriver DB T}.
Implicit Types (d : Driver S DB) (r : recorder T).

(** [Close] hands the recorded entry to [onClose] when the stream closed
    without error and either reports no error or [done] is set. *)
Lemma recorder_Close_closed (now : Time) r d (s1 : T) :
  cs_Close (r_ColumnScanner r) = (None, s1) ->
  recorder_Close now r d =
    (None, with_ColumnScanner s1 r,
     if match cs_Err s1 with None => true | Some _ => false end
        || r_done r
     then onClose (r_onClose r) now (r_columns r) (r_values r) d
     else d).
Proof.
  intros Hc. unfold recorder_Close. rewrite Hc. cbn.
  destruct (cs_Err s1); cbn; [|reflexivity].
  now destruct (r_done r).
Qed.

Lemma onClose_failed (f : onCloseFunc) (now : Time)
  (columns : list string) (values : list (list Value)) d (err : error)
  (c1 : S) :
  Add now (captured_key f) (mkEntry columns values) (captured_ttl f)
    (Cache d) = (Some err, c1) ->
  onClose f now columns values d =
    let ev := EvAdd (captured_key f) (mkEntry columns values)
                (captured_ttl f) in
    if Log d
    then mkDriver (d_Driver d) (TTL d) c1 (Hash d) (Log d)
           (mkStats (Gets (stats d)) (Hits (stats d))
              (AddUint64 (Errors (stats d)) 1))
           (calls d ++ [ev; EvLog (captured_key f) err])
    else mkDriver (d_Driver d) (TTL d) c1 (Hash d) (Log d) (stats d)
           (calls d ++ [ev]).
Proof.
  intros HA. unfold onClose, call_Add. rewrite HA.
  cbn [Log with_calls with_Cache].
  destruct (Log d) eqn:HL;
    unfold call_Log, add_Errors, with_calls, with_Cache, with_stats; cbn;
    rewrite ?HL, <- ?app_assoc; reflexivity.
Qed.

(** C2 (as amended). When the recorder is closed and the store's [Add]
    fails, [Close] returns no error. If a sink is set, the error is
    logged and [Errors] is incremented; if no sink is set, the error is
    neither logged nor counted. *)
Theorem recorder_Close_failed_Add :
  forall (now : Time) r d (s1 : T) (err : error) (c1 : S),
    cs_Close (r_ColumnScanner r) = (None, s1) ->
    cs_Err s1 = None \/ r_done r = true ->
    Add now (captured_key (r_onClose r))
      (mkEntry (r_columns r) (r_values r)) (captured_ttl (r_onClose r))
      (Cache d) = (Some err, c1) ->
    let out := recorder_Close now r d in
    let ev := EvAdd (captured_key (r_onClose r))
                (mkEntry (r_columns r) (r_values r))
                (captured_ttl (r_onClose r)) in
    fst (fst out) = None
    /\ (Log d = true ->
          stats (snd out)
          = mkStats (Gets (stats d)) (Hits (stats d))
              (AddUint64 (Errors (stats d)) 1)
          /\ calls (snd out)
             = calls d ++ [ev; EvLog (captured_key (r_onClose r)) err])
    /\ (Log d = false ->
          stats (snd out) = stats d
          /\ calls (snd out) = calls d ++ [ev]).
Proof.
  intros now r d s1 err c1 Hc Hdone HA out ev. subst out ev.
  rewrite (recorder_Close_closed now r d Hc).
  assert (match cs_Err s1 with None => true | Some _ => false end
          || r_done r = true) as ->.
  { destruct Hdone as [-> | ->]; [reflexivity | apply orb_true_r]. }
  rewrite (onClose_failed _ _ _ _ _ HA). cbn [fst snd].
  split; [reflexivity|].
  split; intros ->; cbn; auto.
Qed.
End RecorderFacts.

(** The recorder closed on a driver whose store is unreachable, with a
    sink: the failure is logged and counted, and [Close] succeeds. *)
Lemma recorder_Close_failed_Add_witness :
  fst (fst (recorder_Close (AGD := levels_AddGetDeleter) 1
              recorder_read_through (driver_levels true))) = None
  /\ stats (snd (recorder_Close (AGD := levels_AddGetDeleter) 1
                   recorder_read_through (driver_levels true)))
     = mkStats 0 0 1
  /\ calls (snd (recorder_Close (AGD := levels_AddGetDeleter) 1
                   recorder_read_through (driver_levels true)))
     = [EvAdd (KInt 1) entry1_values 0;
        EvLog (KInt 1) refused].
Proof.
  destruct (@recorder_Close_failed_Add _ _ _ levels_AddGetDeleter
              sliceRows_ColumnScanner 1
              recorder_read_through (driver_levels true)
              (mkSliceRows ["active"%string] [] None None None true)
              refused
              (mkMultiLevel
                 [inl (NewLRU (-1)); inr (NewRedis kv_unreachable)])
              eq_refl (or_introl eq_refl) eq_refl)
    as (Hres & Hlog & _).
  split; [exact Hres|]. exact (Hlog eq_refl).
Defined.

(** The claim as the specification words it fails without a sink: the
    statement of the Redis test on a driver with no sink and an unreachable
    service takes the miss path, the caller reads both rows, [Add] fails
    when the recorder is closed, and [Errors] stays at zero. *)
Lemma Add_failure_not_counted_without_sink :
  exists (r0 r1 r2 : recorder sliceRows)
         (d1 d2 : Driver (multiLevel tier1) expectations),
    Query (AGD := levels_AddGetDeleter) 0 None select_active (ArgsSlice [])
      no_rows (driver_levels false)
    = (None, VRows (mkRows (ScRecorder r0)), d1)
    /\ recorder_read 3 [DestAny] r0 = (None, r1)
    /\ r_done r1 = true
    /\ fst (Add (AddGetDeleter := levels_AddGetDeleter) 1
              (captured_key (r_onClose r1))
              (mkEntry (r_columns r1) (r_values r1))
              (captured_ttl (r_onClose r1)) (Cache d1)) = Some refused
    /\ recorder_Close (AGD := levels_AddGetDeleter) 1 r1 d1 = (None, r2, d2)
    /\ Log d1 = false
    /\ Errors (stats d1) = 0
    /\ Errors (stats d2) = 0
    /\ Errors (stats d2) <> AddUint64 (Errors (stats d1)) 1.
Proof.
  let q := eval vm_compute in
             (Query (AGD := levels_AddGetDeleter) 0 None select_active
                (ArgsSlice []) no_rows (driver_levels false)) in
  match q with
  | (None, VRows (mkRows (ScRecorder ?r0)), ?d1) =>
      let rd := eval vm_compute in (recorder_read 3 [DestAny] r0) in
      match rd with
      | (None, ?r1) =>
          let cl := eval vm_compute in
                      (recorder_Close (AGD := levels_AddGetDeleter) 1 r1 d1)
          in
          match cl with
          | (None, ?r2, ?d2) => exists r0, r1, r2, d1, d2
          end
      end
  end.
  repeat (split; [vm_compute; reflexivity|]).
  vm_compute. discriminate.
Qed.

(** C1 (the code at the failing input). The wrapped driver answers
    [SELECT id FROM users] with three rows. The caller takes the miss
    path, reads the first row and closes the recorder: two rows are unread
    and [done] is not set, yet [Close] hands the first row to the store
    through [Add], the store holds it, and the next [Query] of the same
    statement is served that single row from the cache. *)
Theorem recorder_Close_after_partial_read :
  exists (r0 r1 r2 r3 : recorder sliceRows)
         (d1 d2 : Driver LRU expectations),
    Query (AGD := @LRU_AddGetDeleter gob2) 0 None select_id (ArgsSlice [])
      no_rows driver_lru
    = (None, VRows (mkRows (ScRecorder r0)), d1)
    /\ recorder_Next r0 = (true, r1)
    /\ recorder_Scan [DestAny] r1 = (None, r2)
    /\ sr_pending (r_ColumnScanner r2) = [[VInt64 2]; [VInt64 3]]
    /\ r_done r2 = false
    /\ recorder_Close (AGD := @LRU_AddGetDeleter gob2) 1 r2 d1
       = (None, r3, d2)
    /\ calls d2 = calls d1 ++ [EvAdd (KInt 1) first_row_only 0]
    /\ lru.peek (KInt 1) (Cache d2) = Some (ptrEntry first_row_only)
    /\ fst (Query (AGD := @LRU_AddGetDeleter gob2) 2 None select_id
              (ArgsSlice []) no_rows d2)
       = (None, VRows (mkRows (ScRepeater (mkRepeater [] [[VInt64 1]])))).
Proof.
  let q := eval vm_compute in
             (Query (AGD := @LRU_AddGetDeleter gob2) 0 None select_id
                (ArgsSlice []) no_rows driver_lru) in
  match q with
  | (None, VRows (mkRows (ScRecorder ?r0)), ?d1) =>
      let nx := eval vm_compute in (recorder_Next r0) in
      match nx with
      | (true, ?r1) =>
          let sc := eval vm_compute in (recorder_Scan [DestAny] r1) in
          match sc with
          | (None, ?r2) =>
              let cl := eval vm_compute in
                          (recorder_Close (AGD := @LRU_AddGetDeleter gob2)
                             1 r2 d1) in
              match cl with
              | (None, ?r3, ?d2) => exists r0, r1, r2, r3, d1, d2
              end
          end
      end
  end.
  repeat (split; [vm_compute; reflexivity|]).
  vm_compute. reflexivity.
Qed.

(* ================================================================== *)
(** * The counters *)
(* ================================================================== *)

Section StatsFacts.
Context {S DB T : Type}.
Context {AGD : AddGetDeleter S} {CS : ColumnScanner T}
        {DD : dialectDriver DB T}.
Implicit Types (d : Driver S DB).

Lemma optionsFromContext_stats (now : Time) (ctx : option ctxOptions)
  (query : string) (argv : list Value) d :
  stats (snd (optionsFromContext now ctx query argv d)) = stats d.
Proof.
  unfold optionsFromContext, call_Hash, call_Del.
  destruct (Key_is_nil _).
  - destruct (Hash d query argv) as [k | e]; [|reflexivity].
    cbn [key ttl skip evict TTL with_calls].
    destruct (_ =? 0); cbn [key ttl skip evict];
      destruct (evict _); cbn [Cache with_calls];
        try destruct (Del _ _ _) as [[e|] c1]; cbn;
          try destruct (skip _); reflexivity.
  - destruct (_ =? 0); cbn [key ttl skip evict];
      destruct (evict _);
        try destruct (Del _ _ _) as [[e|] c1]; cbn;
          try destruct (skip _); reflexivity.
Qed.

Lemma Query_moves (now : Time) (ctx : option ctxOptions) (query : string)
  (args : any_args) (v : any_v T) d :
  stats_moves (stats d) (stats (snd (Query now ctx query args v d))).
Proof.
  unfold Query.
  destruct (negb _ && negb _).
  { left. apply (call_Query_frame query args v d). }
  destruct v as [vr | tyname]; [|now left].
  destruct args as [argv | tyname]; [|now left].
  pose proof (optionsFromContext_stats now ctx query argv d) as Ho.
  destruct (optionsFromContext now ctx query argv d) as [[opts oerr] d1].
  cbn [snd] in Ho.
  destruct oerr as [e|].
  { left. rewrite <- Ho.
    apply (call_Query_frame query (ArgsSlice argv) (VRows vr) d1). }
  unfold call_Get. cbn [Cache add_Gets with_stats].
  destruct (Get now (key opts) (Cache d1)) as [[e | err] c1].
  - right; right; left. cbn. now rewrite Ho.
  - destruct (is_ErrNotFound err).
    + right; left. unfold call_Query_rows.
      cbn [d_Driver with_calls with_Cache with_stats add_Gets].
      destruct (drv_Query _ _ _) as [[s | e] db1]; cbn; now rewrite Ho.
    + right; left.
      match goal with
      | |- context [call_Query ?q ?a ?v ?d] =>
          destruct (call_Query_frame q a v d) as (-> & _)
      end.
      cbn. now rewrite Ho.
Qed.

Lemma Close_moves (now : Time) (r : recorder T) d :
  stats_moves (stats d) (stats (snd (recorder_Close now r d))).
Proof.
  assert (forall f columns values,
            stats_moves (stats d) (stats (onClose f now columns values d)))
    as Hon.
  { intros f columns values. unfold onClose, call_Add.
    destruct (Add _ _ _ _ _) as [[e|] c1]; cbn [Log with_calls with_Cache].
    - destruct (Log d); [|now left].
      right; right; right. reflexivity.
    - now left. }
  unfold recorder_Close.
  destruct (cs_Close _) as [[e|] s1]; [now left|].
  destruct (cs_Err _); [|apply Hon].
  destruct (r_done _); [apply Hon | now left].
Qed.

Lemma step_moves (op : Op T) d : stats_moves (stats d) (stats (step op d)).
Proof.
  destruct op as [now ctx query args v | now r | | query args | query args];
    cbn [step].
  - apply Query_moves.
  - apply Close_moves.
  - now left.
  - left. unfold QueryContext.
    destruct drv_QueryContext as [f|]; [|reflexivity].
    now destruct (f query args (d_Driver d)).
  - left. unfold ExecContext.
    destruct drv_ExecContext as [f|]; [|reflexivity].
    now destruct (f query args (d_Driver d)).
Qed.

Lemma moves_within (n : Z) (s s' : Stats) :
  within n s -> n + 1 < 2 ^ 64 -> stats_moves s s' ->
  within (n + 1) s'
  /\ Gets s <= Gets s' /\ Hits s <= Hits s' /\ Errors s <= Errors s'.
Proof.
  unfold within, stats_moves, AddUint64.
  intros (H0 & H1 & H2 & H3 & H4) Hn Hm.
  assert (forall x, 0 <= x -> x <= n -> (x + 1) mod 2 ^ 64 = x + 1) as Hsmall.
  { intros x Hx Hxn. apply Z.mod_small. lia. }
  destruct Hm as [-> | [-> | [-> | ->]]]; cbn [Gets Hits Errors];
    rewrite ?Hsmall by lia; lia.
Qed.

Lemma run_cons (op : Op T) (ops : list (Op T)) d :
  run (op :: ops) d = run ops (step op d).
Proof. reflexivity. Qed.

Lemma run_snoc (ops : list (Op T)) (op : Op T) d :
  run (ops ++ [op]) d = step op (run ops d).
Proof. unfold run. now rewrite fold_left_app. Qed.

Lemma run_within (ops : list (Op T)) d :
  stats d = mkStats 0 0 0 ->
  Z.of_nat (List.length ops) < 2 ^ 64 ->
  within (Z.of_nat (List.length ops)) (stats (run ops d)).
Proof.
  intros Hz. induction ops as [|op ops IH] using rev_ind; intros Hlen.
  - cbn. rewrite Hz. unfold within. cbn. lia.
  - rewrite run_snoc. rewrite length_app in *. cbn [List.length] in *.
    rewrite Nat2Z.inj_add in *. cbn in Hlen |- *.
    apply (moves_within (s := stats (run ops d))).
    + apply IH. lia.
    + lia.
    + apply step_moves.
Qed.

(** C8 (as amended). From a driver with its counters at zero, while
    fewer than [2^64] operations have been performed: [Hits <= Gets]
    holds before and after each operation, and the operation decreases
    none of [Gets], [Hits], [Errors]. *)
Theorem stats_invariants :
  forall (ops : list (Op T)) (op : Op T) d,
    stats d = mkStats 0 0 0 ->
    Z.of_nat (List.length ops) + 1 < 2 ^ 64 ->
    let d1 := run ops d in
    let d2 := step op d1 in
    Hits (stats d1) <= Gets (stats d1)
    /\ Hits (stats d2) <= Gets (stats d2)
    /\ Gets (stats d1) <= Gets (stats d2)
    /\ Hits (stats d1) <= Hits (stats d2)
    /\ Errors (stats d1) <= Errors (stats d2).
Proof.
  intros ops op d Hz Hlen d1 d2.
  assert (within (Z.of_nat (List.length ops)) (stats d1)) as Hw.
  { apply run_within; [assumption | lia]. }
  destruct (moves_within Hw Hlen (step_moves op d1))
    as (Hw' & Hg & Hh & He).
  unfold within in Hw, Hw'. subst d2. intuition lia.
Qed.
End StatsFacts.

(** Three operations on a driver whose store holds the entry: a miss under
    another key, then two hits. *)
Lemma stats_invariants_witness :
  stats (run (AGD := @LRU_AddGetDeleter gob1) [query_miss; query_hit]
           driver_warm) = mkStats 2 1 0
  /\ stats (step (AGD := @LRU_AddGetDeleter gob1) query_hit
              (run (AGD := @LRU_AddGetDeleter gob1) [query_miss; query_hit]
                 driver_warm)) = mkStats 3 2 0
  /\ Hits (stats (run (AGD := @LRU_AddGetDeleter gob1)
                    [query_miss; query_hit] driver_warm))
     <= Gets (stats (run (AGD := @LRU_AddGetDeleter gob1)
                       [query_miss; query_hit] driver_warm))
  /\ Gets (stats (run (AGD := @LRU_AddGetDeleter gob1)
                    [query_miss; query_hit] driver_warm))
     <= Gets (stats (step (AGD := @LRU_AddGetDeleter gob1) query_hit
                       (run (AGD := @LRU_AddGetDeleter gob1)
                          [query_miss; query_hit] driver_warm))).
Proof.
  split; [reflexivity|]. split; [reflexivity|].
  destruct (@stats_invariants _ _ _ (@LRU_AddGetDeleter gob1)
              sliceRows_ColumnScanner expectations_dialectDriver
              [query_miss; query_hit] query_hit driver_warm eq_refl eq_refl)
    as (H1 & _ & H3 & _).
  split; [exact H1 | exact H3].
Defined.

Lemma step_query_hit (d : Driver LRU expectations) :
  Cache d = lru_with1 -> Hash d = constHash ->
  Cache (step (AGD := @LRU_AddGetDeleter gob1) query_hit d) = lru_with1
  /\ Hash (step (AGD := @LRU_AddGetDeleter gob1) query_hit d) = constHash
  /\ stats (step (AGD := @LRU_AddGetDeleter gob1) query_hit d)
     = mkStats (AddUint64 (Gets (stats d)) 1) (AddUint64 (Hits (stats d)) 1)
         (Errors (stats d)).
Proof.
  destruct d as [db ttl0 cache hash log st cs]. cbn [Cache Hash stats].
  intros -> ->. repeat split.
Qed.

Lemma run_query_hits (n : nat) :
  forall d : Driver LRU expectations,
    Cache d = lru_with1 -> Hash d = constHash ->
    let d' := run (AGD := @LRU_AddGetDeleter gob1) (repeat query_hit n) d in
    Cache d' = lru_with1 /\ Hash d' = constHash
    /\ Gets (stats d') mod 2 ^ 64
       = (Gets (stats d) + Z.of_nat n) mod 2 ^ 64
    /\ Hits (stats d') mod 2 ^ 64
       = (Hits (stats d) + Z.of_nat n) mod 2 ^ 64
    /\ Errors (stats d') = Errors (stats d)
    /\ (n <> O -> 0 <= Gets (stats d') < 2 ^ 64
                  /\ 0 <= Hits (stats d') < 2 ^ 64).
Proof.
  induction n as [|n IH]; intros d Hc Hh.
  - cbn. rewrite !Z.add_0_r. intuition congruence.
  - cbn [repeat]. rewrite run_cons.
    destruct (step_query_hit d Hc Hh) as (Hc1 & Hh1 & Hs1).
    destruct (IH _ Hc1 Hh1) as (Hc2 & Hh2 & Hg2 & Hhi2 & He2 & Hr2).
    cbv zeta.
    split; [exact Hc2|]. split; [exact Hh2|].
    rewrite Hs1 in Hg2, Hhi2, He2. cbn [Gets Hits Errors] in *.
    unfold AddUint64 in *.
    rewrite Zplus_mod_idemp_l in Hg2, Hhi2.
    rewrite Nat2Z.inj_succ.
    replace (Gets (stats d) + Z.succ (Z.of_nat n))
      with (Gets (stats d) + 1 + Z.of_nat n) by lia.
    replace (Hits (stats d) + Z.succ (Z.of_nat n))
      with (Hits (stats d) + 1 + Z.of_nat n) by lia.
    split; [exact Hg2|]. split; [exact Hhi2|]. split; [exact He2|].
    intros _. destruct n as [|n].
    + cbn [repeat run fold_left]. rewrite Hs1. cbn [Gets Hits].
      split; apply Z.mod_pos_bound; lia.
    + apply Hr2. discriminate.
Qed.

(** The claim as the specification words it fails where a counter wraps:
    after one miss and [2^64 - 2] hits the counters stand at
    [Gets = 2^64 - 1] and [Hits = 2^64 - 2]; one more hit takes [Gets] back
    to [0], below what it was and below [Hits]. *)
Lemma counters_wrap_around :
  exists (ops : list (Op sliceRows)) (op : Op sliceRows),
    stats driver_warm = mkStats 0 0 0
    /\ stats (run (AGD := @LRU_AddGetDeleter gob1) ops driver_warm)
       = mkStats (2 ^ 64 - 1) (2 ^ 64 - 2) 0
    /\ stats (step (AGD := @LRU_AddGetDeleter gob1) op
                (run (AGD := @LRU_AddGetDeleter gob1) ops driver_warm))
       = mkStats 0 (2 ^ 64 - 1) 0
    /\ Gets (stats (step (AGD := @LRU_AddGetDeleter gob1) op
                      (run (AGD := @LRU_AddGetDeleter gob1) ops driver_warm)))
       < Gets (stats (run (AGD := @LRU_AddGetDeleter gob1) ops driver_warm))
    /\ Gets (stats (step (AGD := @LRU_AddGetDeleter gob1) op
                      (run (AGD := @LRU_AddGetDeleter gob1) ops driver_warm)))
       < Hits (stats (step (AGD := @LRU_AddGetDeleter gob1) op
                        (run (AGD := @LRU_AddGetDeleter gob1) ops
                           driver_warm))).
Proof.
  exists (query_miss :: repeat query_hit (Z.to_nat (2 ^ 64 - 2))), query_hit.
  rewrite run_cons.
  set (d0 := step (AGD := @LRU_AddGetDeleter gob1) query_miss driver_warm).
  assert (stats d0 = mkStats 1 0 0) as Hs0 by reflexivity.
  destruct (run_query_hits (Z.to_nat (2 ^ 64 - 2)) d0 eq_refl eq_refl)
    as (Hc & Hh & Hg & Hhi & He & Hr).
  set (d1 := run (AGD := @LRU_AddGetDeleter gob1)
               (repeat query_hit (Z.to_nat (2 ^ 64 - 2))) d0) in *.
  rewrite Hs0 in Hg, Hhi, He. cbn [Gets Hits Errors] in Hg, Hhi, He.
  rewrite Z2Nat.id in Hg, Hhi by lia.
  assert (Z.to_nat (2 ^ 64 - 2) <> O) as Hnz by lia.
  destruct (Hr Hnz) as [Hrg Hrh].
  rewrite Z.mod_small in Hg, Hhi by lia.
  assert (stats d1 = mkStats (2 ^ 64 - 1) (2 ^ 64 - 2) 0) as Hs1.
  { destruct (stats d1) as [g h e]. cbn [Gets Hits Errors] in *.
    rewrite Hg, Hhi, He. reflexivity. }
  destruct (step_query_hit d1 Hc Hh) as (_ & _ & Hs2).
  rewrite Hs1 in Hs2. cbn [Gets Hits Errors] in Hs2.
  split; [reflexivity|]. split; [exact Hs1|].
  rewrite Hs2, Hs1. cbn [Gets Hits].
  split; [reflexivity|]. split; reflexivity.
Qed.

(* ================================================================== *)
(** * The default hasher *)
(* ================================================================== *)

Section DefaultHashFacts.
Context {HS : Hashstructure} {S DB T : Type}.
Context {AGD : AddGetDeleter S} {DD : dialectDriver DB T}.



End DefaultHashFacts.


(** Over a library whose hash reads a seed, the default hasher returns
    two keys for one statement: its keys are as repeatable as the
    library's hashes, and no more. *)
Lemma DefaultHash_follows_library :
  ~ deterministic seededHash
  /\ DefaultHash (HS := seededHash) 0 select_id [VInt64 7]
     = Ok (KUint64 21)
  /\ DefaultHash (HS := seededHash) 1 select_id [VInt64 7]
     = Ok (KUint64 22).
Proof.
  split; [|split; reflexivity].
  intros H. specialize (H 0 1 select_id [VInt64 7]). discriminate H.
Qed.

(* ================================================================== *)
(** * The paths of [Query] *)
(* ================================================================== *)

Section QueryPaths.
Context {S DB T : Type}.
Context {AGD : AddGetDeleter S} {DD : dialectDriver DB T}.
Implicit Types (d : Driver S DB) (v : any_v T).

Lemma select_gate (query : string) :
  prefix "SELECT" query = true \/ prefix "select" query = true ->
  negb (prefix "SELECT" query) && negb (prefix "select" query) = false.
Proof.
  intros [-> | ->]; cbn; [reflexivity | apply andb_false_r].
Qed.

Lemma after_hash_carried (c : ctxOptions) (query : string)
  (argv : list Value) d :
  Key_is_nil (key c) = false -> after_hash c query argv d = d.
Proof.
  intros Hk. unfold after_hash, hash_calls. rewrite Hk, app_nil_r.
  now destruct d.
Qed.

(** A call that neither skips nor evicts resolves its options without
    error: the key is the one the context carries, and the hasher is then
    not called, or else the key the hasher returns; the TTL is the one of
    the call when it is not zero, and the driver's otherwise. *)
Lemma optionsFromContext_resolved :
  forall (now : Time) (ctx : option ctxOptions) (query : string)
         (argv : list Value) d (k : Key),
    (if Key_is_nil (key (ctx_or_zero ctx))
     then Hash d query argv = Ok k
     else key (ctx_or_zero ctx) = k) ->
    evict (ctx_or_zero ctx) = false ->
    skip (ctx_or_zero ctx) = false ->
    optionsFromContext now ctx query argv d
    = (mkCtxOptions false false k (resolved_ttl (ctx_or_zero ctx) d), None,
       after_hash (ctx_or_zero ctx) query argv d).
Proof.
  intros now ctx query argv d k. unfold optionsFromContext.
  fold (ctx_or_zero ctx). generalize (ctx_or_zero ctx).
  intros [sk ev ky tt]. cbn [key ttl skip evict]. intros Hkey -> ->.
  destruct (Key_is_nil ky) eqn:Hnil.
  - unfold call_Hash. rewrite Hkey. cbn [key ttl skip evict TTL with_calls].
    unfold resolved_ttl, after_hash, hash_calls. cbn [key ttl]. rewrite Hnil.
    destruct (tt =? 0); reflexivity.
  - rewrite (after_hash_carried (mkCtxOptions false false ky tt) query argv
               d Hnil).
    subst k. unfold resolved_ttl. cbn [ttl].
    destruct (tt =? 0); reflexivity.
Qed.

(** After the options are resolved [Query] counts the lookup and asks the
    store. *)
Lemma Query_resolved (now : Time) (ctx : option ctxOptions)
  (query : string) (argv : list Value) (vr : Rows T) d (k : Key) :
  prefix "SELECT" query = true \/ prefix "select" query = true ->
  (if Key_is_nil (key (ctx_or_zero ctx))
   then Hash d query argv = Ok k
   else key (ctx_or_zero ctx) = k) ->
  evict (ctx_or_zero ctx) = false ->
  skip (ctx_or_zero ctx) = false ->
  Query now ctx query (ArgsSlice argv) (VRows vr) d =
    let d2 := add_Gets (after_hash (ctx_or_zero ctx) query argv d) in
    let ttl1 := resolved_ttl (ctx_or_zero ctx) d in
    match call_Get now k d2 with
    | (Ok e, d3) =>
        (None,
         VRows (mkRows (ScRepeater (mkRepeater (Columns e) (Values e)))),
         add_Hits d3)
    | (Err err, d3) =>
        if is_ErrNotFound err then
          match call_Query_rows query (ArgsSlice argv) d3 with
          | (Err err, d4) => (Some err, VRows vr, d4)
          | (Ok s, d4) =>
              (None,
               VRows (mkRows (ScRecorder (mkRecorder s [] [] false
                                            (mkOnClose k ttl1)))),
               d4)
          end
        else call_Query query (ArgsSlice argv) (VRows vr) d3
    end.
Proof.
  intros Hsel Hkey Hev Hsk. unfold Query.
  rewrite (select_gate query Hsel).
  rewrite (optionsFromContext_resolved now ctx query argv d k Hkey Hev Hsk).
  reflexivity.
Qed.

(** X1. The hit path: when the store returns an entry, [Query] returns
    no error and sets a repeater over the columns and the values of the
    entry; [Gets] and [Hits] are each incremented, and the wrapped driver
    is not called. *)
Theorem Query_hit :
  forall (now : Time) (ctx : option ctxOptions) (query : string)
         (argv : list Value) (vr : Rows T) d (k : Key) (e : Entry) (c1 : S),
    prefix "SELECT" query = true \/ prefix "select" query = true ->
    (if Key_is_nil (key (ctx_or_zero ctx))
     then Hash d query argv = Ok k
     else key (ctx_or_zero ctx) = k) ->
    evict (ctx_or_zero ctx) = false ->
    skip (ctx_or_zero ctx) = false ->
    Get now k (Cache d) = (Ok e, c1) ->
    Query now ctx query (ArgsSlice argv) (VRows vr) d
    = (None,
       VRows (mkRows (ScRepeater (mkRepeater (Columns e) (Values e)))),
       mkDriver (d_Driver d) (TTL d) c1 (Hash d) (Log d)
         (mkStats (AddUint64 (Gets (stats d)) 1)
            (AddUint64 (Hits (stats d)) 1) (Errors (stats d)))
         (calls d ++ hash_calls (ctx_or_zero ctx) query argv ++ [EvGet k])).
Proof.
  intros now ctx query argv vr d k e c1 Hsel Hkey Hev Hsk Hget.
  rewrite (Query_resolved now ctx query argv vr d k Hsel Hkey Hev Hsk).
  cbv zeta. unfold call_Get, add_Gets, after_hash, with_stats.
  cbn [Cache]. rewrite Hget.
  unfold add_Hits, with_calls, with_Cache, with_stats. cbn.
  now rewrite <- app_assoc.
Qed.

(** X2. The miss path when the wrapped driver fails: its error is
    returned, [v] is left alone and no recorder is set; the lookup is
    counted in [Gets], and nothing is stored. *)
Theorem Query_miss_driver_error :
  forall (now : Time) (ctx : option ctxOptions) (query : string)
         (argv : list Value) (vr : Rows T) d (k : Key) (c1 : S)
         (err : error) (db1 : DB),
    prefix "SELECT" query = true \/ prefix "select" query = true ->
    (if Key_is_nil (key (ctx_or_zero ctx))
     then Hash d query argv = Ok k
     else key (ctx_or_zero ctx) = k) ->
    evict (ctx_or_zero ctx) = false ->
    skip (ctx_or_zero ctx) = false ->
    Get now k (Cache d) = (Err ErrNotFound, c1) ->
    drv_Query query (ArgsSlice argv) (d_Driver d) = (Err err, db1) ->
    Query now ctx query (ArgsSlice argv) (VRows vr) d
    = (Some err, VRows vr,
       mkDriver db1 (TTL d) c1 (Hash d) (Log d)
         (mkStats (AddUint64 (Gets (stats d)) 1) (Hits (stats d))
            (Errors (stats d)))
         (calls d ++ hash_calls (ctx_or_zero ctx) query argv
            ++ [EvGet k; EvQuery query])).
Proof.
  intros now ctx query argv vr d k c1 err db1 Hsel Hkey Hev Hsk Hget Hq.
  rewrite (Query_resolved now ctx query argv vr d k Hsel Hkey Hev Hsk).
  cbv zeta. unfold call_Get, add_Gets, after_hash, with_stats.
  cbn [Cache]. rewrite Hget. cbn [is_ErrNotFound].
  unfold call_Query_rows, with_calls, with_Cache, with_Driver.
  cbn [d_Driver]. rewrite Hq. cbn.
  now rewrite <- !app_assoc.
Qed.


(** X4. For a statement that begins with [SELECT] or [select], a [v] that
    is not a [*sql.Rows], and then an [args] that is not a [[]any], make
    [Query] fail before any collaborator is called: the driver is left as
    it was. *)
Theorem Query_invalid_types :
  forall (now : Time) (ctx : option ctxOptions) (query : string) d,
    prefix "SELECT" query = true \/ prefix "select" query = true ->
    (forall (args : any_args) (tyname : string),
       exists msg,
         Query now ctx query args (VOther tyname) d
         = (Some (Errorf msg), VOther tyname, d))
    /\ (forall (vr : Rows T) (tyname : string),
          exists msg,
            Query now ctx query (ArgsOther tyname) (VRows vr) d
            = (Some (Errorf msg), VRows vr, d)).
Proof.
  intros now ctx query d Hsel. split.
  - intros args tyname. eexists. unfold Query.
    rewrite (select_gate query Hsel). reflexivity.
  - intros vr tyname. eexists. unfold Query.
    rewrite (select_gate query Hsel). reflexivity.
Qed.


(** X6. When the context carries no key and the hasher fails, [Query]
    forwards the call to the wrapped driver whatever the other options
    are, and returns what the wrapped driver's [Query] returns on the
    same statement and arguments: its error with [v] left alone, or no
    error with the stream it opened in [v]. The store is not called, not
    even to evict, the error of the hasher is not returned and no counter
    moves. *)
Theorem Query_hash_error :
  forall (now : Time) (ctx : option ctxOptions) (query : string)
         (argv : list Value) (vr : Rows T) d (err : error),
    prefix "SELECT" query = true \/ prefix "select" query = true ->
    key (ctx_or_zero ctx) = KNil ->
    Hash d query argv = Err err ->
    let out := Query now ctx query (ArgsSlice argv) (VRows vr) d in
    out = call_Query query (ArgsSlice argv) (VRows vr)
            (with_calls (EvHash query argv) d)
    /\ (forall (r : result T) (db1 : DB),
          drv_Query query (ArgsSlice argv) (d_Driver d) = (r, db1) ->
          out
          = (match r with Err e => Some e | Ok _ => None end,
             match r with
             | Err _ => VRows vr
             | Ok s => VRows (mkRows (ScStream s))
             end,
             mkDriver db1 (TTL d) (Cache d) (Hash d) (Log d) (stats d)
               (calls d ++ [EvHash query argv; EvQuery query])))
    /\ Cache (snd out) = Cache d
    /\ stats (snd out) = stats d
    /\ calls (snd out) = calls d ++ [EvHash query argv; EvQuery query].
Proof.
  intros now ctx query argv vr d err Hsel Hnil Hh out.
  assert (out = call_Query query (ArgsSlice argv) (VRows vr)
                  (with_calls (EvHash query argv) d)) as E.
  { subst out. unfold Query. rewrite (select_gate query Hsel).
    unfold optionsFromContext. fold (ctx_or_zero ctx). rewrite Hnil.
    cbn [Key_is_nil]. unfold call_Hash. now rewrite Hh. }
  rewrite E.
  destruct (call_Query_frame query (ArgsSlice argv) (VRows vr)
              (with_calls (EvHash query argv) d)) as (Hst & Hc & Hcalls & _).
  split; [reflexivity|]. split.
  { intros r db1 Hq.
    rewrite (@call_Query_rows_returns S DB T DD query (ArgsSlice argv) vr
               (with_calls (EvHash query argv) d) r db1 Hq).
    cbn [with_calls TTL Cache Hash Log stats calls].
    now rewrite <- app_assoc. }
  split; [exact Hc|]. split; [exact Hst|].
  rewrite Hcalls. cbn [with_calls calls]. now rewrite <- app_assoc.
Qed.

(** X7. With the evict and skip options, as [Evict] sets them, and a store
    whose [Del] succeeds, [Query] deletes the key and then forwards the
    call to the wrapped driver, and returns what the wrapped driver's
    [Query] returns on the same statement and arguments: its error with
    [v] left alone, or no error with the stream it opened in [v]. The
    store is not looked up and no counter moves. *)
Theorem Query_evict :
  forall (now : Time) (c : ctxOptions) (query : string)
         (argv : list Value) (vr : Rows T) d (k : Key) (c1 : S),
    prefix "SELECT" query = true \/ prefix "select" query = true ->
    (if Key_is_nil (key c) then Hash d query argv = Ok k else key c = k) ->
    evict c = true ->
    skip c = true ->
    Del now k (Cache d) = (None, c1) ->
    let d1 :=
      mkDriver (d_Driver d) (TTL d) c1 (Hash d) (Log d) (stats d)
        (calls d ++ hash_calls c query argv ++ [EvDel k]) in
    let out := Query now (Some c) query (ArgsSlice argv) (VRows vr) d in
    out = call_Query query (ArgsSlice argv) (VRows vr) d1
    /\ (forall (r : result T) (db1 : DB),
          drv_Query query (ArgsSlice argv) (d_Driver d) = (r, db1) ->
          out
          = (match r with Err e => Some e | Ok _ => None end,
             match r with
             | Err _ => VRows vr
             | Ok s => VRows (mkRows (ScStream s))
             end,
             mkDriver db1 (TTL d) c1 (Hash d) (Log d) (stats d)
               (calls d ++ hash_calls c query argv
                  ++ [EvDel k; EvQuery query])))
    /\ Cache (snd out) = c1
    /\ stats (snd out) = stats d
    /\ calls (snd out)
       = calls d ++ hash_calls c query argv ++ [EvDel k; EvQuery query].
Proof.
  intros now c query argv vr d k c1 Hsel Hkey Hev Hsk Hdel d1 out.
  assert (exists opts,
            optionsFromContext now (Some c) query argv d
            = (opts, Some errSkip, d1)) as [opts Hopts].
  { subst d1. unfold optionsFromContext, hash_calls, call_Hash.
    destruct (Key_is_nil (key c)).
    - rewrite Hkey. cbn [key ttl skip evict TTL with_calls].
      destruct (ttl c =? 0); cbn [key ttl skip evict]; rewrite Hev, Hsk;
        unfold call_Del; cbn [Cache with_calls with_Cache];
        rewrite Hdel; eexists; unfold with_calls, with_Cache; cbn;
        rewrite <- ?app_assoc; reflexivity.
    - subst k.
      destruct (ttl c =? 0); cbn [key ttl skip evict]; rewrite Hev, Hsk;
        unfold call_Del; rewrite Hdel; eexists;
        unfold with_calls, with_Cache; cbn; reflexivity. }
  assert (out = call_Query query (ArgsSlice argv) (VRows vr) d1) as E.
  { subst out. unfold Query. rewrite (select_gate query Hsel).
    now rewrite Hopts. }
  rewrite E.
  destruct (call_Query_frame query (ArgsSlice argv) (VRows vr) d1)
    as (Hst & Hc & Hcalls & _).
  split; [reflexivity|]. split.
  { intros r db1 Hq.
    rewrite (@call_Query_rows_returns S DB T DD query (ArgsSlice argv) vr
               d1 r db1 Hq).
    subst d1. cbn [TTL Cache Hash Log stats calls].
    now rewrite <- !app_assoc. }
  split; [exact Hc|]. split; [exact Hst|].
  rewrite Hcalls. subst d1. cbn [calls]. now rewrite <- !app_assoc.
Qed.
End QueryPaths.

(** A call that carries its key, on a driver with a TTL of 60: the key is
    the carried one, the TTL is the driver's, no call is recorded. *)
Lemma optionsFromContext_resolved_witness :
  optionsFromContext (AGD := @LRU_AddGetDeleter gob1) 0 (Some ctx_key)
    select_id [] driver_default_warm
  = (mkCtxOptions false false (KString "cache-key") 60, None,
     driver_default_warm).
Proof.
  exact (@optionsFromContext_resolved _ _ (@LRU_AddGetDeleter gob1) 0
           (Some ctx_key) select_id [] driver_default_warm
           (KString "cache-key") eq_refl eq_refl eq_refl).
Defined.

(** A statement whose entry the store holds. *)
Lemma Query_hit_witness :
  fst (Query (AGD := @LRU_AddGetDeleter gob1) 0 None select_active
         (ArgsSlice []) no_rows driver_warm)
  = (None,
     VRows (mkRows (ScRepeater
                      (mkRepeater ["active"%string]
                         [[VBool true]; [VBool false]]))))
  /\ stats (snd (Query (AGD := @LRU_AddGetDeleter gob1) 0 None select_active
                   (ArgsSlice []) no_rows driver_warm))
     = mkStats 1 1 0
  /\ calls (snd (Query (AGD := @LRU_AddGetDeleter gob1) 0 None select_active
                   (ArgsSlice []) no_rows driver_warm))
     = [EvHash select_active []; EvGet (KInt 1)].
Proof.
  pose proof (@Query_hit _ _ _ (@LRU_AddGetDeleter gob1) _ 0 None
                select_active [] (mkRows ScNil) driver_warm (KInt 1) entry1
                lru_with1 (or_introl eq_refl) eq_refl eq_refl eq_refl
                eq_refl) as E.
  split; [exact (f_equal fst E)|].
  split; [exact (f_equal (fun o => stats (snd o)) E)|].
  exact (f_equal (fun o => calls (snd o)) E).
Defined.

(** A statement under another key, the wrapped driver expecting no
    query. *)
Lemma Query_miss_driver_error_witness :
  fst (Query (AGD := @LRU_AddGetDeleter gob1) 0 (Some ctx_other_key)
         select_active (ArgsSlice []) no_rows driver_warm)
  = (Some (Errorf "all expectations were already fulfilled"), no_rows)
  /\ stats (snd (Query (AGD := @LRU_AddGetDeleter gob1) 0
                   (Some ctx_other_key) select_active (ArgsSlice []) no_rows
                   driver_warm))
     = mkStats 1 0 0.
Proof.
  pose proof (@Query_miss_driver_error _ _ _ (@LRU_AddGetDeleter gob1) _ 0
                (Some ctx_other_key) select_active [] (mkRows ScNil)
                driver_warm (KString "other") lru_with1
                (Errorf "all expectations were already fulfilled") []
                (or_introl eq_refl) eq_refl eq_refl eq_refl eq_refl eq_refl)
    as E.
  split; [exact (f_equal fst E)|].
  exact (f_equal (fun o => stats (snd o)) E).
Defined.


(** A [SELECT] with a [v] and with an [args] of another type. *)
Lemma Query_invalid_types_witness :
  (exists msg,
     Query (AGD := @LRU_AddGetDeleter gob1) 0 None select_active
       (ArgsSlice []) (VOther "*int") driver_warm
     = (Some (Errorf msg), VOther "*int", driver_warm))
  /\ (exists msg,
        Query (AGD := @LRU_AddGetDeleter gob1) 0 None select_active
          (ArgsOther "string") no_rows driver_warm
        = (Some (Errorf msg), no_rows, driver_warm)).
Proof.
  destruct (@Query_invalid_types _ _ sliceRows (@LRU_AddGetDeleter gob1) _ 0
              None select_active driver_warm (or_introl eq_refl))
    as [Hv Ha].
  split; [exact (Hv (ArgsSlice []) "*int"%string)|].
  exact (Ha (mkRows ScNil) "string"%string).
Defined.


(** A [SELECT] with the evict option on a driver whose hasher fails: the
    caller gets the stream of the wrapped driver, whose expectation is
    consumed, and the store is not asked to delete. *)
Lemma Query_hash_error_witness :
  Query (AGD := @LRU_AddGetDeleter gob2) 0 (Some ctx_Evict) select_id
    (ArgsSlice []) no_rows driver_hash_fails
  = (None, VRows (mkRows (ScStream rows_id)),
     mkDriver [] 0 (NewLRU 0) failing_Hash false (mkStats 0 0 0)
       [EvHash select_id []; EvQuery select_id])
  /\ stats (snd (Query (AGD := @LRU_AddGetDeleter gob2) 0 (Some ctx_Evict)
                   select_id (ArgsSlice []) no_rows driver_hash_fails))
     = mkStats 0 0 0
  /\ calls (snd (Query (AGD := @LRU_AddGetDeleter gob2) 0 (Some ctx_Evict)
                   select_id (ArgsSlice []) no_rows driver_hash_fails))
     = [EvHash select_id []; EvQuery select_id].
Proof.
  destruct (@Query_hash_error _ _ _ (@LRU_AddGetDeleter gob2) _ 0
              (Some ctx_Evict) select_id [] (mkRows ScNil)
              driver_hash_fails
              (Errorf
                 "Driver.Query should not be called for INSERT statements")
              (or_introl eq_refl) eq_refl eq_refl)
    as (_ & Hrows & _ & Hst & Hcalls).
  split; [|split; [exact Hst | exact Hcalls]].
  exact (Hrows (Ok rows_id) [] eq_refl).
Defined.

(** A statement whose entry the store holds, with the evict option: the
    entry is gone, and the caller gets the stream of the wrapped driver
    and not the entry. *)
Lemma Query_evict_witness :
  lru.peek (KInt 1) (Cache driver_warm_expecting) = Some (ptrEntry entry1)
  /\ Query (AGD := @LRU_AddGetDeleter gob1) 0 (Some ctx_Evict)
       select_active (ArgsSlice []) no_rows driver_warm_expecting
     = (None, VRows (mkRows (ScStream rows_active)),
        mkDriver [] 0 (lru.Remove (KInt 1) lru_with1) constHash false
          (mkStats 0 0 0)
          [EvHash select_active []; EvDel (KInt 1); EvQuery select_active])
  /\ lru.peek (KInt 1)
       (Cache (snd (Query (AGD := @LRU_AddGetDeleter gob1) 0
                      (Some ctx_Evict) select_active (ArgsSlice []) no_rows
                      driver_warm_expecting)))
     = None
  /\ stats (snd (Query (AGD := @LRU_AddGetDeleter gob1) 0 (Some ctx_Evict)
                   select_active (ArgsSlice []) no_rows
                   driver_warm_expecting))
     = mkStats 0 0 0.
Proof.
  split; [reflexivity|].
  destruct (@Query_evict _ _ _ (@LRU_AddGetDeleter gob1) _ 0 ctx_Evict
              select_active [] (mkRows ScNil) driver_warm_expecting
              (KInt 1) (lru.Remove (KInt 1) lru_with1) (or_introl eq_refl)
              eq_refl eq_refl eq_refl eq_refl)
    as (_ & Hrows & Hc & Hst & _).
  split; [exact (Hrows (Ok rows_active) [] eq_refl)|].
  split; [exact (f_equal (lru.peek (KInt 1)) Hc) | exact Hst].
Defined.

(* ================================================================== *)
(** * What the recorder records *)
(* ================================================================== *)

Lemma set_at_length {A : Type} (i : nat) (x : A) (l : list A) :
  List.length (set_at i x l) = List.length l.
Proof.
  revert i. induction l as [|y l IH]; intros [|i]; cbn; auto.
Qed.

Lemma set_at_middle {A : Type} (pre : list A) (x y : A) (post : list A) :
  set_at (List.length pre) x (pre ++ y :: post) = pre ++ x :: post.
Proof.
  induction pre as [|z pre IH]; cbn; [reflexivity | now rewrite IH].
Qed.

Lemma rawCopy_Scan_keeps (src : Value) :
  match src with VBytes b => VBytes b | _ => src end = src.
Proof. now destruct src. Qed.

(** The values the stream hands over fill the slots from the window on. *)
Lemma rawCopy_feed_fits (srcs pre post : list Value) :
  rawCopy_feed srcs
    (mkRawCopy (pre ++ repeat VNil (List.length srcs) ++ post)
       (List.length pre))
  = (None,
     mkRawCopy (pre ++ srcs ++ post) (List.length pre + List.length srcs)).
Proof.
  revert pre. induction srcs as [|src srcs IH]; intros pre.
  - cbn. now rewrite Nat.add_0_r.
  - cbn [rawCopy_feed List.length repeat]. unfold rawCopy_Scan.
    cbn [rc_low rc_array]. rewrite rawCopy_Scan_keeps.
    assert ((List.length pre
             <? List.length
                  (pre ++ (VNil :: repeat VNil (List.length srcs)) ++ post))%nat
            = true) as ->.
    { apply Nat.ltb_lt. rewrite length_app. cbn. lia. }
    cbn [app]. rewrite set_at_middle.
    replace (pre ++ src :: repeat VNil (List.length srcs) ++ post)
      with ((pre ++ [src]) ++ repeat VNil (List.length srcs) ++ post)
      by now rewrite <- app_assoc.
    replace (Datatypes.S (List.length pre))
      with (List.length (pre ++ [src]))
      by (rewrite length_app; cbn; lia).
    rewrite IH. rewrite length_app. cbn [List.length].
    rewrite <- app_assoc. cbn [app]. f_equal. f_equal. lia.
Qed.

Section RecorderScan.
Context {T Dest : Type} {CS : ColumnScanner T} {CV : Converter Dest}.
Implicit Types (r : recorder T) (dest : list Dest).

(** X8. [Scan] on the recorder, when the stream hands over as many raw
    values as there are destinations and each converts to its
    destination, succeeds, appends exactly that row to the recorded
    values and leaves the recorded columns, [done] and [onClose] alone. *)
Theorem recorder_Scan_records_row :
  forall dest r (srcs : list Value) (s1 : T),
    cs_Scan (List.length dest) (r_ColumnScanner r) = (Ok srcs, s1) ->
    List.length srcs = List.length dest ->
    assign_loop dest srcs = None ->
    recorder_Scan dest r
    = (None,
       mkRecorder s1 (r_values r ++ [srcs]) (r_columns r) (r_done r)
         (r_onClose r)).
Proof.
  intros dest r srcs s1 Hscan Hlen Hconv.
  unfold recorder_Scan. rewrite Hscan, <- Hlen.
  pose proof (rawCopy_feed_fits srcs [] []) as F.
  cbn [app List.length Nat.add] in F. rewrite !app_nil_r in F.
  rewrite F. cbn [rc_array]. now rewrite Hconv.
Qed.

(** X9. Whatever [Scan] on the recorder returns, the recorded columns,
    [done] and [onClose] are as before; when it returns an error (of the
    stream, of the copy or of a conversion) the recorded values are as
    before, and when it returns none they are the former ones followed by
    one row with a value for each destination. *)
Theorem recorder_Scan_effect :
  forall dest r,
    r_columns (snd (recorder_Scan dest r)) = r_columns r
    /\ r_done (snd (recorder_Scan dest r)) = r_done r
    /\ r_onClose (snd (recorder_Scan dest r)) = r_onClose r
    /\ (fst (recorder_Scan dest r) <> None ->
        r_values (snd (recorder_Scan dest r)) = r_values r)
    /\ (fst (recorder_Scan dest r) = None ->
        exists row,
          r_values (snd (recorder_Scan dest r)) = r_values r ++ [row]
          /\ List.length row = List.length dest).
Proof.
  intros dest r. unfold recorder_Scan.
  destruct (cs_Scan _ _) as [[srcs | e] s1].
  2:{ cbn. repeat split; try reflexivity. discriminate. }
  assert (forall srcs c,
            List.length
              (rc_array (snd (rawCopy_feed srcs c)))
            = List.length (rc_array c)) as Hlen.
  { clear. induction srcs as [|src srcs IH]; intros c; [reflexivity|].
    cbn [rawCopy_feed]. unfold rawCopy_Scan.
    destruct (_ <? _)%nat; [|reflexivity].
    rewrite IH. cbn [rc_array]. apply set_at_length. }
  specialize (Hlen srcs (mkRawCopy (repeat VNil (List.length dest)) 0)).
  destruct (rawCopy_feed srcs _) as [[e|] c1].
  { cbn. repeat split; try reflexivity. discriminate. }
  cbn [snd rc_array] in Hlen. rewrite repeat_length in Hlen.
  destruct (assign_loop dest (rc_array c1)).
  { cbn. repeat split; try reflexivity. discriminate. }
  cbn. repeat split; try reflexivity; [congruence|].
  intros _. exists (rc_array c1). auto.
Qed.
End RecorderScan.

Section RecorderClose.
Context {S DB T : Type}.
Context {AGD : AddGetDeleter S} {CS : ColumnScanner T}.
Implicit Types (d : Driver S DB) (r : recorder T).

(** X10. [Close] on the recorder leaves the driver as it was, store
    included, in two cases: when closing the stream fails, and that error
    is returned; and when the stream closed, reports an error and [done]
    is not set, and [Close] succeeds. *)
Theorem recorder_Close_stores_nothing :
  forall (now : Time) r d (s1 : T),
    (forall err, cs_Close (r_ColumnScanner r) = (Some err, s1) ->
       recorder_Close now r d = (Some err, with_ColumnScanner s1 r, d))
    /\ (forall err, cs_Close (r_ColumnScanner r) = (None, s1) ->
          cs_Err s1 = Some err -> r_done r = false ->
          recorder_Close now r d = (None, with_ColumnScanner s1 r, d)).
Proof.
  intros now r d s1. split.
  - intros err Hc. unfold recorder_Close. now rewrite Hc.
  - intros err Hc He Hd. rewrite (recorder_Close_closed now r d Hc).
    now rewrite He, Hd.
Qed.

(** X11. When the recorder is closed after a stream that ended or reports
    no error and the store's [Add] succeeds, [Close] succeeds, the store
    has been given the recorded columns and values under the key and the
    TTL of the call, nothing is logged and no counter moves. *)
Theorem recorder_Close_stores :
  forall (now : Time) r d (s1 : T) (c1 : S),
    cs_Close (r_ColumnScanner r) = (None, s1) ->
    cs_Err s1 = None \/ r_done r = true ->
    Add now (captured_key (r_onClose r))
      (mkEntry (r_columns r) (r_values r)) (captured_ttl (r_onClose r))
      (Cache d) = (None, c1) ->
    recorder_Close now r d
    = (None, with_ColumnScanner s1 r,
       mkDriver (d_Driver d) (TTL d) c1 (Hash d) (Log d) (stats d)
         (calls d
            ++ [EvAdd (captured_key (r_onClose r))
                  (mkEntry (r_columns r) (r_values r))
                  (captured_ttl (r_onClose r))])).
Proof.
  intros now r d s1 c1 Hc Hdone HA.
  rewrite (recorder_Close_closed now r d Hc).
  assert (match cs_Err s1 with None => true | Some _ => false end
          || r_done r = true) as ->.
  { destruct Hdone as [-> | ->]; [reflexivity | apply orb_true_r]. }
  unfold onClose, call_Add. now rewrite HA.
Qed.
End RecorderClose.

(* ================================================================== *)
(** * What the repeater replays *)
(* ================================================================== *)

Section RepeaterFacts.
Context {Dest : Type} {CV : Converter Dest}.
Implicit Types (dest : list Dest).

Lemma repeater_Scan_ok dest (columns : list string) (row : list Value)
  (rows : list (list Value)) :
  assign_loop dest row = None ->
  repeater_Scan dest (mkRepeater columns (row :: rows))
  = (None, mkRepeater columns rows).
Proof. intros H. unfold repeater_Scan. cbn. now rewrite H. Qed.

(** X12. [Scan] on the repeater consumes a row only when it succeeds: on
    a repeater without rows it fails with [sql.ErrNoRows]; when a value
    of the first row does not convert, it fails with the error of the
    conversion and the row stays first; when every value converts, the
    first row is dropped. The columns are never touched. *)
Theorem repeater_Scan_cases :
  forall dest (columns : list string),
    repeater_Scan dest (mkRepeater columns [])
      = (Some ErrNoRows, mkRepeater columns [])
    /\ (forall row rows err,
          assign_loop dest row = Some err ->
          repeater_Scan dest (mkRepeater columns (row :: rows))
          = (Some err, mkRepeater columns (row :: rows)))
    /\ (forall row rows,
          assign_loop dest row = None ->
          repeater_Scan dest (mkRepeater columns (row :: rows))
          = (None, mkRepeater columns rows)).
Proof.
  intros dest columns. split; [reflexivity|]. split.
  - intros row rows err H. unfold repeater_Scan. cbn. now rewrite H.
  - intros row rows H. now apply repeater_Scan_ok.
Qed.

(** X13. The loop [for rows.Next() { rows.Scan(dest...) }] on a repeater
    yields the cached rows, all of them and in their order, and leaves the
    repeater without rows, provided every row converts to the
    destinations. *)
Theorem repeater_replays :
  forall dest (columns : list string) (rows seen : list (list Value))
         (fuel : nat),
    Forall (fun row => assign_loop dest row = None) rows ->
    (List.length rows <= fuel)%nat ->
    repeater_read fuel dest (mkRepeater columns rows) seen
    = (None, mkRepeater columns [], seen ++ rows).
Proof.
  intros dest columns rows. induction rows as [|row rows IH];
    intros seen fuel Hconv Hfuel.
  - rewrite app_nil_r. destruct fuel; reflexivity.
  - destruct fuel as [|fuel]; [cbn in Hfuel; lia|].
    inversion Hconv as [|? ? Hrow Hrest]; subst.
    cbn [repeater_read].
    rewrite (@repeater_Scan_ok dest columns row rows Hrow).
    change (repeater_Next (mkRepeater columns (row :: rows))) with true.
    cbn [rp_values hd]. rewrite IH; [|assumption | cbn in Hfuel; lia].
    now rewrite <- app_assoc.
Qed.
End RepeaterFacts.

(** [Scan] into one destination that takes any value, on the first row of
    [rows_id]. *)
Lemma recorder_Scan_records_row_witness :
  recorder_Scan [DestAny] recorder_on_first_row
  = (None,
     mkRecorder (r_ColumnScanner recorder_on_first_row) [[VInt64 1]] []
       false (mkOnClose (KInt 1) 0)).
Proof.
  exact (@recorder_Scan_records_row sliceRows dest _ _ [DestAny]
           recorder_on_first_row [VInt64 1]
           (r_ColumnScanner recorder_on_first_row) eq_refl eq_refl eq_refl).
Defined.

(** [Scan] of an integer into a destination that rejects it, and into one
    that takes it. *)
Lemma recorder_Scan_effect_witness :
  fst (recorder_Scan [DestBool] recorder_on_first_row) <> None
  /\ r_values (snd (recorder_Scan [DestBool] recorder_on_first_row)) = []
  /\ fst (recorder_Scan [DestAny] recorder_on_first_row) = None
  /\ exists row,
       r_values (snd (recorder_Scan [DestAny] recorder_on_first_row))
       = [] ++ [row]
       /\ List.length row = 1%nat.
Proof.
  assert (fst (recorder_Scan [DestBool] recorder_on_first_row) <> None)
    as Hfail by discriminate.
  split; [exact Hfail|].
  destruct (@recorder_Scan_effect sliceRows dest _ _ [DestBool]
              recorder_on_first_row) as (_ & _ & _ & Herr & _).
  split; [exact (Herr Hfail)|].
  split; [reflexivity|].
  destruct (@recorder_Scan_effect sliceRows dest _ _ [DestAny]
              recorder_on_first_row) as (_ & _ & _ & _ & Hok).
  exact (Hok eq_refl).
Defined.

(** [Close] on a recorder whose stream fails to close, and on one whose
    stream broke before its end: the store of the driver is as before. *)
Lemma recorder_Close_stores_nothing_witness :
  recorder_Close (AGD := @LRU_AddGetDeleter gob1) 1 recorder_lost driver_warm
  = (Some refused, recorder_lost, driver_warm)
  /\ fst (recorder_Close (AGD := @LRU_AddGetDeleter gob1) 1
            recorder_interrupted driver_warm)
     = (None,
        with_ColumnScanner
          (snd (cs_Close (r_ColumnScanner recorder_interrupted)))
          recorder_interrupted)
  /\ snd (recorder_Close (AGD := @LRU_AddGetDeleter gob1) 1
            recorder_interrupted driver_warm)
     = driver_warm.
Proof.
  destruct (@recorder_Close_stores_nothing _ expectations _
              (@LRU_AddGetDeleter gob1) lostRows_ColumnScanner 1
              recorder_lost driver_warm Lost) as [Hlost _].
  destruct (@recorder_Close_stores_nothing _ expectations _
              (@LRU_AddGetDeleter gob1) sliceRows_ColumnScanner 1
              recorder_interrupted driver_warm
              (snd (cs_Close (r_ColumnScanner recorder_interrupted))))
    as [_ Hint].
  split; [exact (Hlost refused eq_refl)|].
  pose proof (Hint refused eq_refl eq_refl eq_refl) as E.
  split; [exact (f_equal fst E) | exact (f_equal snd E)].
Defined.

(** [Close] on a recorder read to its end, over a store that takes the
    entry. *)
Lemma recorder_Close_stores_witness :
  fst (recorder_Close (AGD := @LRU_AddGetDeleter gob1) 1
         recorder_read_through driver_warm)
  = (None, recorder_read_through)
  /\ lru.peek (KInt 1)
       (Cache (snd (recorder_Close (AGD := @LRU_AddGetDeleter gob1) 1
                      recorder_read_through driver_warm)))
     = Some (ptrEntry entry1_values)
  /\ stats (snd (recorder_Close (AGD := @LRU_AddGetDeleter gob1) 1
                   recorder_read_through driver_warm))
     = mkStats 0 0 0
  /\ calls (snd (recorder_Close (AGD := @LRU_AddGetDeleter gob1) 1
                   recorder_read_through driver_warm))
     = [EvAdd (KInt 1) entry1_values 0].
Proof.
  pose proof (@recorder_Close_stores _ expectations _
                (@LRU_AddGetDeleter gob1) sliceRows_ColumnScanner 1
                recorder_read_through driver_warm
                (r_ColumnScanner recorder_read_through)
                (lru.Add (KInt 1) (ptrEntry entry1_values) lru_with1)
                eq_refl (or_introl eq_refl) eq_refl) as E.
  split; [exact (f_equal fst E)|].
  split; [exact (f_equal (fun o => lru.peek (KInt 1) (Cache (snd o))) E)|].
  split; [exact (f_equal (fun o => stats (snd o)) E)|].
  exact (f_equal (fun o => calls (snd o)) E).
Defined.

(** [Scan] on a repeater whose first row holds an integer, into a
    destination that rejects it and into one that takes it. *)
Lemma repeater_Scan_cases_witness :
  repeater_Scan [DestBool] (mkRepeater [] [[VInt64 1]; [VInt64 2]])
  = (Some (Errorf "sql: Scan error: unsupported conversion"),
     mkRepeater [] [[VInt64 1]; [VInt64 2]])
  /\ repeater_Scan [DestAny] (mkRepeater [] [[VInt64 1]; [VInt64 2]])
     = (None, mkRepeater [] [[VInt64 2]]).
Proof.
  destruct (@repeater_Scan_cases dest _ [DestBool] []) as (_ & Herr & _).
  destruct (@repeater_Scan_cases dest _ [DestAny] []) as (_ & _ & Hok).
  split.
  - exact (Herr [VInt64 1] [[VInt64 2]] _ eq_refl).
  - exact (Hok [VInt64 1] [[VInt64 2]] eq_refl).
Defined.

(** The rows of [rows_id] replayed from a repeater. *)
Lemma repeater_replays_witness :
  repeater_read 5 [DestAny]
    (mkRepeater ["id"%string] [[VInt64 1]; [VInt64 2]; [VInt64 3]]) []
  = (None, mkRepeater ["id"%string] [],
     [[VInt64 1]; [VInt64 2]; [VInt64 3]]).
Proof.
  refine (@repeater_replays dest _ [DestAny] ["id"%string]
            [[VInt64 1]; [VInt64 2]; [VInt64 3]] [] 5 _ _).
  - repeat constructor.
  - cbn. lia.
Defined.

(* ================================================================== *)
(** * More on the bounded store and the LRU tier *)
(* ================================================================== *)

Section StoreFacts.
Context {A : Type}.
Implicit Types (k : Key) (v : A) (l : list (Key * A)) (c : lru.Cache A).

Lemma Key_eqb_eq k k' : Key_eqb k k' = true <-> k = k'.
Proof.
  unfold Key_eqb. destruct (Key_eq_dec k k'); split; congruence.
Qed.

Lemma Key_eqb_neq k k' : k <> k' -> Key_eqb k k' = false.
Proof.
  intros Hne. destruct (Key_eqb k k') eqn:E; [|reflexivity].
  apply Key_eqb_eq in E. contradiction.
Qed.

Lemma find_unlink_other k k' l :
  k <> k' -> lru.find k' (lru.unlink k l) = lru.find k' l.
Proof.
  intros Hne. induction l as [|[k0 v0] l IH]; cbn; [reflexivity|].
  destruct (Key_eqb k k0) eqn:E.
  - apply Key_eqb_eq in E. subst k0.
    rewrite IH. now rewrite (Key_eqb_neq (k := k') (k' := k)) by congruence.
  - cbn. now rewrite IH.
Qed.

Lemma find_cons_other k k' v l :
  k <> k' -> lru.find k' ((k, v) :: l) = lru.find k' l.
Proof.
  intros Hne. cbn.
  now rewrite (Key_eqb_neq (k := k') (k' := k)) by congruence.
Qed.

Lemma find_None_notin k l :
  lru.find k l = None -> ~ In k (map fst l).
Proof.
  induction l as [|[k0 v0] l IH]; cbn; [tauto|].
  destruct (Key_eqb k k0) eqn:E; [discriminate|].
  intros F [H | H].
  - subst k0. now rewrite lruFacts.Key_eqb_refl in E.
  - now apply IH.
Qed.

Lemma unlink_keys k k' l :
  In k' (map fst (lru.unlink k l)) -> In k' (map fst l) /\ k' <> k.
Proof.
  induction l as [|[k0 v0] l IH]; cbn; [tauto|].
  destruct (Key_eqb k k0) eqn:E.
  - intros H. destruct (IH H). auto.
  - cbn. intros [H | H].
    + subst k0. split; [auto|]. intros ->.
      now rewrite lruFacts.Key_eqb_refl in E.
    + destruct (IH H). auto.
Qed.

Lemma unlink_NoDup k l :
  NoDup (map fst l) -> NoDup (map fst (lru.unlink k l)).
Proof.
  induction l as [|[k0 v0] l IH]; cbn; [auto|].
  intros H. inversion H as [|? ? Hn Hd]; subst.
  destruct (Key_eqb k k0); [auto|].
  cbn. constructor; [|auto].
  intros Hin. apply unlink_keys in Hin. tauto.
Qed.

Lemma unlink_length k l :
  (List.length (lru.unlink k l) <= List.length l)%nat
  /\ (lru.find k l <> None ->
      (List.length (lru.unlink k l) < List.length l)%nat).
Proof.
  induction l as [|[k0 v0] l [IH1 IH2]]; cbn; [split; [lia | congruence]|].
  destruct (Key_eqb k k0); cbn.
  - split; [lia | intros _; lia].
  - split; [lia | intros H; specialize (IH2 H); lia].
Qed.

Lemma In_firstn {B : Type} (x : B) (n : nat) (l : list B) :
  In x (firstn n l) -> In x l.
Proof.
  revert n. induction l as [|y l IH]; intros [|n]; cbn; try tauto.
  intros [H | H]; [auto | right; eauto].
Qed.

Lemma NoDup_firstn {B : Type} (n : nat) (l : list B) :
  NoDup l -> NoDup (firstn n l).
Proof.
  revert n. induction l as [|x l IH]; intros [|n] H; cbn;
    try constructor.
  - inversion H; subst. intros Hin. apply In_firstn in Hin. contradiction.
  - inversion H; subst. auto.
Qed.

Lemma removelast_keys l :
  NoDup (map fst l) -> NoDup (map fst (removelast l)).
Proof.
  intros H. rewrite removelast_firstn_len, <- firstn_map.
  now apply NoDup_firstn.
Qed.

Lemma removelast_len l :
  List.length (removelast l) = Nat.pred (List.length l).
Proof.
  rewrite removelast_firstn_len, length_firstn. lia.
Qed.

Lemma Add_bounded k v c : lru_bounded c -> lru_bounded (lru.Add k v c).
Proof.
  unfold lru_bounded, lru.Add, lru.Len. intros [Hd Hb].
  destruct (lru.find k (lru.ll c)) eqn:F.
  - cbn [lru.ll lru.MaxEntries]. split.
    + cbn. constructor; [|now apply unlink_NoDup].
      intros Hin. apply unlink_keys in Hin. tauto.
    + intros Hpos. specialize (Hb Hpos).
      destruct (unlink_length k (lru.ll c)) as [_ Hlt].
      cbn [List.length]. assert (lru.find k (lru.ll c) <> None) by congruence.
      specialize (Hlt H). lia.
  - cbv zeta. cbn [lru.ll lru.MaxEntries].
    assert (NoDup (map fst ((k, v) :: lru.ll c))) as Hd1.
    { cbn. constructor; [now apply find_None_notin | assumption]. }
    destruct (negb (lru.MaxEntries c =? 0)
              && (lru.MaxEntries c
                  <? Z.of_nat (List.length ((k, v) :: lru.ll c)))) eqn:E.
    + unfold lru.RemoveOldest. cbn [lru.ll lru.MaxEntries]. split.
      * now apply removelast_keys.
      * intros Hpos. specialize (Hb Hpos). rewrite removelast_len.
        cbn [List.length Nat.pred]. exact Hb.
    + cbn [lru.ll lru.MaxEntries]. split; [assumption|].
      intros Hpos. apply andb_false_iff in E. destruct E as [E | E].
      * apply negb_false_iff, Z.eqb_eq in E. lia.
      * apply Z.ltb_ge in E. exact E.
Qed.

Lemma Get_bounded k c : lru_bounded c -> lru_bounded (snd (lru.Get k c)).
Proof.
  unfold lru_bounded, lru.Get, lru.Len. intros [Hd Hb].
  destruct (lru.find k (lru.ll c)) eqn:F; [|now split].
  cbn [snd lru.ll lru.MaxEntries]. split.
  - cbn. constructor; [|now apply unlink_NoDup].
    intros Hin. apply unlink_keys in Hin. tauto.
  - intros Hpos. specialize (Hb Hpos).
    destruct (unlink_length k (lru.ll c)) as [_ Hlt].
    cbn [List.length]. assert (lru.find k (lru.ll c) <> None) by congruence.
    specialize (Hlt H). lia.
Qed.

Lemma Remove_bounded k c : lru_bounded c -> lru_bounded (lru.Remove k c).
Proof.
  unfold lru_bounded, lru.Remove, lru.Len. intros [Hd Hb].
  cbn [lru.ll lru.MaxEntries]. split; [now apply unlink_NoDup|].
  intros Hpos. specialize (Hb Hpos).
  destruct (unlink_length k (lru.ll c)) as [Hle _]. lia.
Qed.
End StoreFacts.

Section LRUTierMore.
Context {G : Gob}.

(** X14. The LRU tier keeps its store well formed: from a store whose
    keys are distinct and, when the capacity is positive, no more than
    the capacity, each of [Add], [Get] and [Del] leads to such a store,
    whatever it returns. *)
Theorem LRU_keeps_bounded :
  forall (now : Time) (k : Key) (e : Entry) (ttl : Duration) (l : LRU),
    lru_bounded l ->
    lru_bounded (snd (LRU_Add now k e ttl l))
    /\ lru_bounded (snd (LRU_Get now k l))
    /\ lru_bounded (snd (LRU_Del k l)).
Proof.
  intros now k e ttl l Hb. split; [|split].
  - unfold LRU_Add. destruct (MarshalBinary e); [|exact Hb].
    destruct (UnmarshalBinary _ _) as [[err|] ne]; [exact Hb|].
    destruct (ttl =? 0); cbn [snd]; now apply Add_bounded.
  - unfold LRU_Get. pose proof (Get_bounded k Hb) as Hg.
    destruct (lru.Get k l) as [[v|] l1]; cbn [snd] in *; [|exact Hg].
    destruct v as [e0 | w | ty]; [exact Hg | | exact Hg].
    destruct (Time_Before now (expiry w)); cbn [snd]; [exact Hg|].
    now apply Remove_bounded.
  - cbn. now apply Remove_bounded.
Qed.

(** X15. [Del] on the LRU tier always succeeds, and a [Get] of the same
    key after it, at any instant, is "not found". *)
Theorem LRU_Del_then_Get :
  forall (now : Time) (k : Key) (l : LRU),
    fst (LRU_Del k l) = None
    /\ LRU_Get now k (snd (LRU_Del k l))
       = (Err ErrNotFound, snd (LRU_Del k l)).
Proof.
  intros now k l. split; [reflexivity|]. cbn [LRU_Del snd].
  apply LRU_Get_missing. apply lruFacts.peek_Remove.
Qed.

(** X16. An [Add] on the LRU tier that the codec refuses, be it on
    encoding or on decoding, returns the error of the codec and leaves
    the store as it was. *)
Theorem LRU_Add_codec_error :
  forall (now : Time) (k : Key) (e : Entry) (ttl : Duration) (l : LRU)
         (err : error),
    (gob_Encode (mkWire (Columns e) (Values e)) = Err err ->
     LRU_Add now k e ttl l = (Some err, l))
    /\ (forall buf,
          gob_Encode (mkWire (Columns e) (Values e)) = Ok buf ->
          gob_Decode buf = Err err ->
          LRU_Add now k e ttl l = (Some err, l)).
Proof.
  intros now k e ttl l err. split.
  - intros He. unfold LRU_Add, MarshalBinary. now rewrite He.
  - intros buf He Hd. unfold LRU_Add, MarshalBinary, UnmarshalBinary.
    now rewrite He, Hd.
Qed.

(** X17. What the LRU tier holds under a key is not changed by a [Get] or
    a [Del] of another key, nor, when the tier is unbounded, by an [Add]
    under another key. *)
Theorem LRU_other_keys :
  forall (now : Time) (k k' : Key) (e : Entry) (ttl : Duration) (l : LRU),
    k <> k' ->
    lru.peek k' (snd (LRU_Get now k l)) = lru.peek k' l
    /\ lru.peek k' (snd (LRU_Del k l)) = lru.peek k' l
    /\ (lru.MaxEntries l = 0 ->
        lru.peek k' (snd (LRU_Add now k e ttl l)) = lru.peek k' l).
Proof.
  intros now k k' e ttl l Hne.
  assert (forall v, lru.find k' ((k, v) :: lru.unlink k (lru.ll l))
                    = lru.find k' (lru.ll l)) as Hfront.
  { intros v. rewrite find_cons_other by assumption.
    now apply find_unlink_other. }
  split; [|split].
  - unfold LRU_Get, lru.Get, lru.peek.
    destruct (lru.find k (lru.ll l)) as [v|] eqn:F; [|reflexivity].
    destruct v as [e0 | w | ty]; cbn [snd lru.ll]; try apply Hfront.
    destruct (Time_Before now (expiry w)); cbn [snd lru.ll lru.Remove];
      [apply Hfront|].
    rewrite find_unlink_other by assumption. apply Hfront.
  - cbn. unfold lru.peek. cbn. now apply find_unlink_other.
  - intros Hcap. unfold LRU_Add.
    destruct (MarshalBinary e); [|reflexivity].
    destruct (UnmarshalBinary _ _) as [[err|] ne]; [reflexivity|].
    assert (forall v, lru.peek k' (lru.Add k v l) = lru.peek k' l) as HA.
    { intros v. unfold lru.peek, lru.Add.
      destruct (lru.find k (lru.ll l)); cbn [lru.ll]; [apply Hfront|].
      cbv zeta. cbn [lru.MaxEntries]. rewrite Hcap. cbn.
      now rewrite (Key_eqb_neq (k := k') (k' := k)) by congruence. }
    destruct (ttl =? 0); cbn [snd]; apply HA.
Qed.

(** X18. A tier made with a negative capacity keeps nothing: while its
    store is empty, an [Add] that the codec lets through succeeds and
    leaves the store empty, so that every [Get] is "not found". *)
Theorem LRU_negative_capacity :
  forall (now now' : Time) (k k' : Key) (e ne : Entry) (buf : list byte)
         (ttl : Duration) (l : LRU),
    lru.MaxEntries l < 0 ->
    lru.ll l = [] ->
    MarshalBinary e = Ok buf ->
    UnmarshalBinary buf Entry_zero = (None, ne) ->
    LRU_Add now k e ttl l = (None, l)
    /\ LRU_Get now' k' (snd (LRU_Add now k e ttl l)) = (Err ErrNotFound, l).
Proof.
  intros now now' k k' e ne buf ttl l Hcap Hempty M U.
  assert (forall v, lru.Add k v l = l) as HA.
  { intros v. unfold lru.Add. rewrite Hempty. cbn [lru.find].
    cbv zeta. unfold lru.Len. cbn [lru.ll lru.MaxEntries List.length].
    assert (negb (lru.MaxEntries l =? 0) && (lru.MaxEntries l <? Z.of_nat 1)
            = true) as ->.
    { apply andb_true_intro. split.
      - apply negb_true_iff, Z.eqb_neq. lia.
      - apply Z.ltb_lt. lia. }
    unfold lru.RemoveOldest. cbn. destruct l as [m ls]. cbn in *.
    now subst ls. }
  assert (LRU_Add now k e ttl l = (None, l)) as E.
  { rewrite (@LRU_Add_ok _ now k e ne buf ttl l M U). now rewrite HA. }
  split; [exact E|]. rewrite E. cbn [snd].
  apply LRU_Get_missing. unfold lru.peek. now rewrite Hempty.
Qed.
End LRUTierMore.

(** A second key added to a full tier of capacity one: still one entry. *)
Lemma LRU_keeps_bounded_witness :
  lru_bounded lru_full1
  /\ lru_bounded (snd (@LRU_Add gob1 0 (KInt 2) entry1 0 lru_full1))
  /\ lru.Len (snd (@LRU_Add gob1 0 (KInt 2) entry1 0 lru_full1)) = 1.
Proof.
  assert (lru_bounded lru_full1) as Hb.
  { split; [|intros _; cbn; lia].
    cbn. constructor; [intros [] | constructor]. }
  split; [exact Hb|].
  destruct (@LRU_keeps_bounded gob1 0 (KInt 2) entry1 0 lru_full1 Hb)
    as (HA & _ & _).
  split; [exact HA | reflexivity].
Defined.

(** An entry the coder does not know, and a codec whose decoder knows
    no type. *)
Lemma LRU_Add_codec_error_witness :
  @LRU_Add gob2 0 (KInt 1) entry1 0 lru_with1
  = (Some (Errorf "gob: type not registered"), lru_with1)
  /\ @LRU_Add gob_no_decoder 0 (KInt 1) entry1 0 lru_with1
     = (Some (Errorf "gob: type not registered"), lru_with1).
Proof.
  destruct (@LRU_Add_codec_error gob2 0 (KInt 1) entry1 0 lru_with1
              (Errorf "gob: type not registered")) as [Henc _].
  destruct (@LRU_Add_codec_error gob_no_decoder 0 (KInt 1) entry1 0
              lru_with1 (Errorf "gob: type not registered")) as [_ Hdec].
  split; [exact (Henc eq_refl) | exact (Hdec [x00] eq_refl eq_refl)].
Defined.

(** Operations under the key [2] on a tier that holds an entry under the
    key [1]. *)
Lemma LRU_other_keys_witness :
  lru.peek (KInt 1) (snd (LRU_Get 0 (KInt 2) lru_with1))
  = Some (ptrEntry entry1)
  /\ lru.peek (KInt 1) (snd (LRU_Del (KInt 2) lru_with1))
     = Some (ptrEntry entry1)
  /\ lru.peek (KInt 1) (snd (@LRU_Add gob1 0 (KInt 2) entry1 5 lru_with1))
     = Some (ptrEntry entry1).
Proof.
  assert (KInt 2 <> KInt 1) as Hne by discriminate.
  destruct (@LRU_other_keys gob1 0 (KInt 2) (KInt 1) entry1 5 lru_with1 Hne)
    as (HG & HD & HA).
  split; [exact HG|]. split; [exact HD | exact (HA eq_refl)].
Defined.

(** The tier [NewLRU(-1)] of the package's tests. *)
Lemma LRU_negative_capacity_witness :
  @LRU_Add gob1 0 (KInt 1) entry1 0 (NewLRU (-1)) = (None, NewLRU (-1))
  /\ LRU_Get 1 (KInt 1)
       (snd (@LRU_Add gob1 0 (KInt 1) entry1 0 (NewLRU (-1))))
     = (Err ErrNotFound, NewLRU (-1)).
Proof.
  exact (@LRU_negative_capacity gob1 0 1 (KInt 1) (KInt 1) entry1 entry1
           bytes1 0 (NewLRU (-1)) eq_refl eq_refl eq_refl eq_refl).
Defined.

(* ================================================================== *)
(** * From the recorder to the next hit *)
(* ================================================================== *)

Section RecordThenHit.
Context {G : Gob} {DB T : Type}.
Context {CS : ColumnScanner T} {DD : dialectDriver DB T}.
Implicit Types (d : Driver LRU DB) (r : recorder T).

(** X19. Over an LRU tier with a capacity that is not negative: once a
    recorder whose stream reports no error is closed and the codec copies
    the recorded entry to [ne], a later [Query] that resolves to the key
    of the recorder, with no skip and no eviction, is a hit that replays
    the columns and the values of [ne], provided the TTL of the recorder
    is zero or the instant of the query is before the instant of [Close]
    plus that TTL. *)
Theorem record_then_hit :
  forall (now now' : Time) r d (s1 : T) (ne : Entry) (buf : list byte)
         (ctx : option ctxOptions) (query : string) (argv : list Value)
         (vr : Rows T),
    cs_Close (r_ColumnScanner r) = (None, s1) ->
    cs_Err s1 = None ->
    MarshalBinary (mkEntry (r_columns r) (r_values r)) = Ok buf ->
    UnmarshalBinary buf Entry_zero = (None, ne) ->
    0 <= lru.MaxEntries (Cache d) ->
    captured_ttl (r_onClose r) = 0
    \/ now' < now + captured_ttl (r_onClose r) ->
    prefix "SELECT" query = true \/ prefix "select" query = true ->
    (if Key_is_nil (key (ctx_or_zero ctx))
     then Hash d query argv = Ok (captured_key (r_onClose r))
     else key (ctx_or_zero ctx) = captured_key (r_onClose r)) ->
    evict (ctx_or_zero ctx) = false ->
    skip (ctx_or_zero ctx) = false ->
    fst (Query now' ctx query (ArgsSlice argv) (VRows vr)
           (snd (recorder_Close now r d)))
    = (None,
       VRows (mkRows (ScRepeater (mkRepeater (Columns ne) (Values ne))))).
Proof.
  intros now now' r d s1 ne buf ctx query argv vr Hc He M U Hcap Httl Hsel
         Hkey Hev Hsk.
  set (k := captured_key (r_onClose r)) in *.
  set (t := captured_ttl (r_onClose r)) in *.
  set (v := if t =? 0 then ptrEntry ne
            else ptr_entry (mk_entry ne (now + t))).
  assert (Add now k (mkEntry (r_columns r) (r_values r)) t (Cache d)
          = (None, lru.Add k v (Cache d))) as HA.
  { cbn [Add LRU_AddGetDeleter].
    exact (@LRU_Add_ok _ now k _ ne buf t (Cache d) M U). }
  rewrite (recorder_Close_closed now r d Hc). rewrite He. cbn [orb].
  unfold onClose, call_Add. fold k t. rewrite HA. cbn [snd].
  set (d2 := with_calls _ _).
  assert (exists c2, Get now' k (Cache d2) = (Ok ne, c2)) as [c2 Hget].
  { cbn [Get LRU_AddGetDeleter]. subst d2. cbn [Cache].
    pose proof (lruFacts.peek_Add k v (Cache d) Hcap) as P.
    subst v. destruct (t =? 0) eqn:Et.
    - destruct (@LRU_Get_bare now' k ne _ P) as (c2 & Hg & _). eauto.
    - assert (now' < now + t) as Hlt.
      { destruct Httl as [E | E]; [|exact E].
        apply Z.eqb_neq in Et. contradiction. }
      destruct (@LRU_Get_fresh now' k (mk_entry ne (now + t)) _ P Hlt)
        as (c2 & Hg & _).
      eauto. }
  assert (if Key_is_nil (key (ctx_or_zero ctx))
          then Hash d2 query argv = Ok k
          else key (ctx_or_zero ctx) = k) as Hkey2 by exact Hkey.
  rewrite (Query_resolved now' ctx query argv vr d2 k Hsel Hkey2 Hev Hsk).
  cbv zeta. unfold call_Get, add_Gets, after_hash, with_stats.
  cbn [Cache]. now rewrite Hget.
Qed.
End RecordThenHit.

(** The recorder of the package's test statement, read to its end and
    closed at instant 1 on a fresh driver; the same statement at
    instant 2. *)
Lemma record_then_hit_witness :
  fst (Query (AGD := @LRU_AddGetDeleter gob1) 2 None select_active
         (ArgsSlice []) no_rows
         (snd (recorder_Close (AGD := @LRU_AddGetDeleter gob1) 1
                 recorder_read_through
                 (NewDriver ([] : expectations) 0 (NewLRU 0) constHash
                    false))))
  = (None,
     VRows (mkRows (ScRepeater
                      (mkRepeater [] [[VBool true]; [VBool false]])))).
Proof.
  exact (@record_then_hit gob1 expectations sliceRows _ _ 1 2
           recorder_read_through
           (NewDriver ([] : expectations) 0 (NewLRU 0) constHash false)
           (r_ColumnScanner recorder_read_through) entry1_values
           [x01; x03] None select_active [] (mkRows ScNil) eq_refl eq_refl
           eq_refl eq_refl (Z.le_refl 0) (or_introl eq_refl)
           (or_introl eq_refl) eq_refl eq_refl eq_refl).
Defined.

(* ================================================================== *)
(** * Keys of the Redis tier, tiers of the composer *)
(* ================================================================== *)

Section RedisKeys.
Context {R : Type} {CM : Cmdable R} {G : Gob}.

(** X20. The Redis tier knows a key by its text only: two keys with the
    same text, whatever their types, are the same key for [Add], [Get] and
    [Del]. *)
Theorem Redis_textual_key :
  forall (k1 k2 : Key) (e : Entry) (ttl : Duration) (r : Redis R),
    Sprint k1 = Sprint k2 ->
    Redis_Add k1 e ttl r = Redis_Add k2 e ttl r
    /\ Redis_Get k1 r = Redis_Get k2 r
    /\ Redis_Del k1 r = Redis_Del k2 r.
Proof.
  intros k1 k2 e ttl r E. unfold Redis_Add, Redis_Get, Redis_Del.
  now rewrite E.
Qed.
End RedisKeys.

(** The integer [1] and the string ["1"]: one key for the Redis tier, two
    keys for the LRU tier. *)
Lemma Redis_textual_key_witness :
  KInt 1 <> KString "1"
  /\ @Redis_Get kvService _ gob1 (KInt 1) (NewRedis kv_garbled)
     = @Redis_Get kvService _ gob1 (KString "1") (NewRedis kv_garbled)
  /\ fst (LRU_Get 0 (KInt 1) lru_with1) = Ok entry1
  /\ fst (LRU_Get 0 (KString "1") lru_with1) = Err ErrNotFound.
Proof.
  split; [discriminate|].
  destruct (@Redis_textual_key kvService _ gob1 (KInt 1) (KString "1")
              entry1 0 (NewRedis kv_garbled) eq_refl) as (_ & HG & _).
  split; [exact HG|]. split; reflexivity.
Defined.

Section ComposerMore.
Context {S : Type} {AGD : AddGetDeleter S}.

Lemma Get_loop_length (now : Time) (k : Key) (ls : list S) :
  List.length (snd (multiLevel_Get_loop now k ls)) = List.length ls.
Proof.
  induction ls as [|l ls IH]; [reflexivity|].
  cbn [multiLevel_Get_loop].
  destruct (Get now k l) as [[e | err] l1]; [reflexivity|].
  destruct (negb (is_ErrNotFound err)); [reflexivity|].
  destruct (multiLevel_Get_loop now k ls). cbn in *. now rewrite IH.
Qed.

Lemma Add_loop_length (now : Time) (k : Key) (e : Entry) (ttl : Duration)
  (ls : list S) :
  List.length (snd (multiLevel_Add_loop now k e ttl ls)) = List.length ls.
Proof.
  induction ls as [|l ls IH]; [reflexivity|].
  cbn [multiLevel_Add_loop].
  destruct (Add now k e ttl l) as [[err|] l1]; [reflexivity|].
  destruct (multiLevel_Add_loop now k e ttl ls). cbn in *. now rewrite IH.
Qed.

Lemma Del_loop_length (now : Time) (k : Key) (ls : list S) :
  List.length (snd (multiLevel_Del_loop now k ls)) = List.length ls.
Proof.
  induction ls as [|l ls IH]; [reflexivity|].
  cbn [multiLevel_Del_loop].
  destruct (Del now k l) as [[err|] l1]; [reflexivity|].
  destruct (multiLevel_Del_loop now k ls). cbn in *. now rewrite IH.
Qed.

(** X21. The composer never gains nor loses a tier: after [Get], [Add] or
    [Del], whatever they return, it holds as many tiers as before. *)
Theorem multiLevel_keeps_tiers :
  forall (now : Time) (k : Key) (e : Entry) (ttl : Duration)
         (m : multiLevel S),
    List.length (levels (snd (multiLevel_Get now k m)))
    = List.length (levels m)
    /\ List.length (levels (snd (multiLevel_Add now k e ttl m)))
       = List.length (levels m)
    /\ List.length (levels (snd (multiLevel_Del now k m)))
       = List.length (levels m).
Proof.
  intros now k e ttl m. unfold multiLevel_Get, multiLevel_Add, multiLevel_Del.
  pose proof (Get_loop_length now k (levels m)) as HG.
  pose proof (Add_loop_length now k e ttl (levels m)) as HA.
  pose proof (Del_loop_length now k (levels m)) as HD.
  destruct (multiLevel_Get_loop now k (levels m)).
  destruct (multiLevel_Add_loop now k e ttl (levels m)).
  destruct (multiLevel_Del_loop now k (levels m)).
  cbn in *. auto.
Qed.

(** X22. For one tier [Levels] and [NewContext] install the tier itself
    and not the composer over it, and nothing can tell the difference:
    the composer over one tier returns what the tier returns, for [Get],
    [Add] and [Del], and holds the tier as the call left it. *)
Theorem choose_single_tier :
  forall (now : Time) (k : Key) (e : Entry) (ttl : Duration) (l : S),
    choose [l] = inl l
    /\ multiLevel_Get now k (mkMultiLevel [l])
       = (fst (Get now k l), mkMultiLevel [snd (Get now k l)])
    /\ multiLevel_Add now k e ttl (mkMultiLevel [l])
       = (fst (Add now k e ttl l), mkMultiLevel [snd (Add now k e ttl l)])
    /\ multiLevel_Del now k (mkMultiLevel [l])
       = (fst (Del now k l), mkMultiLevel [snd (Del now k l)]).
Proof.
  intros now k e ttl l. split; [reflexivity|].
  unfold multiLevel_Get, multiLevel_Add, multiLevel_Del.
  cbn [levels multiLevel_Get_loop multiLevel_Add_loop multiLevel_Del_loop].
  split; [|split].
  - destruct (Get now k l) as [[en | err] l1]; [reflexivity|].
    destruct err; reflexivity.
  - destruct (Add now k e ttl l) as [[err|] l1]; reflexivity.
  - destruct (Del now k l) as [[err|] l1]; reflexivity.
Qed.
End ComposerMore.

(* ================================================================== *)
(** * Stores that hold nothing *)
(* ================================================================== *)

Section InertStore.
Context {S DB T : Type}.
Context {AGD : AddGetDeleter S} {CS : ColumnScanner T}
        {DD : dialectDriver DB T}.
Implicit Types (d : Driver S DB).

Lemma optionsFromContext_inert (now : Time) (ctx : option ctxOptions)
  (query : string) (argv : list Value) d :
  inert (Cache d) ->
  Cache (snd (optionsFromContext now ctx query argv d)) = Cache d.
Proof.
  intros (_ & _ & HD).
  unfold optionsFromContext, call_Hash, call_Del.
  destruct (Key_is_nil _).
  - destruct (Hash d query argv) as [k | e]; [|reflexivity].
    cbn [key ttl skip evict TTL with_calls].
    destruct (_ =? 0); cbn [key ttl skip evict];
      destruct (evict _); cbn [Cache with_calls]; rewrite ?HD; cbn;
        destruct (skip _); reflexivity.
  - destruct (_ =? 0); cbn [key ttl skip evict];
      destruct (evict _); rewrite ?HD; cbn;
        destruct (skip _); reflexivity.
Qed.

Lemma Query_inert (now : Time) (ctx : option ctxOptions) (query : string)
  (args : any_args) (v : any_v T) d :
  inert (Cache d) ->
  let d' := snd (Query now ctx query args v d) in
  Cache d' = Cache d /\ Hits (stats d') = Hits (stats d)
  /\ Errors (stats d') = Errors (stats d).
Proof.
  intros Hin. pose proof Hin as (HG & _ & _). unfold Query.
  destruct (negb _ && negb _).
  { destruct (call_Query_frame query args v d) as (-> & -> & _). auto. }
  destruct v as [vr | tyname]; [|cbn; auto].
  destruct args as [argv | tyname]; [|cbn; auto].
  pose proof (optionsFromContext_stats now ctx query argv d) as Hs.
  pose proof (optionsFromContext_inert now ctx query argv d Hin) as Hc.
  destruct (optionsFromContext now ctx query argv d) as [[opts oerr] d1].
  cbn [snd] in Hs, Hc.
  destruct oerr as [e|].
  { destruct (call_Query_frame query (ArgsSlice argv) (VRows vr) d1)
      as (-> & -> & _).
    rewrite Hs, Hc. auto. }
  unfold call_Get. cbn [Cache add_Gets with_stats]. rewrite Hc, HG.
  cbn [is_ErrNotFound]. unfold call_Query_rows.
  cbn [d_Driver with_calls with_Cache with_stats add_Gets].
  destruct (drv_Query _ _ _) as [[s | e] db1]; cbn; rewrite Hs; auto.
Qed.

Lemma Close_inert (now : Time) (r : recorder T) d :
  inert (Cache d) ->
  let d' := snd (recorder_Close now r d) in
  Cache d' = Cache d /\ Hits (stats d') = Hits (stats d)
  /\ Errors (stats d') = Errors (stats d).
Proof.
  intros (_ & HA & _).
  assert (forall f columns values,
            let d' := onClose f now columns values d in
            Cache d' = Cache d /\ Hits (stats d') = Hits (stats d)
            /\ Errors (stats d') = Errors (stats d)) as Hon.
  { intros f columns values. unfold onClose, call_Add. rewrite HA.
    cbn. auto. }
  unfold recorder_Close.
  destruct (cs_Close _) as [[e|] s1]; [cbn; auto|].
  destruct (cs_Err _); [|apply Hon].
  destruct (r_done _); [apply Hon | cbn; auto].
Qed.

(** The two passthroughs reach the wrapped driver, when it has the method,
    and nothing else: the store, the counters and the recorded calls are
    as before; when it lacks the method the driver is left as it was. *)
Lemma passthroughs_frame (query : string) (args : list Value) d :
  (Cache (snd (QueryContext query args d)) = Cache d
   /\ stats (snd (QueryContext query args d)) = stats d
   /\ calls (snd (QueryContext query args d)) = calls d)
  /\ (Cache (snd (ExecContext query args d)) = Cache d
      /\ stats (snd (ExecContext query args d)) = stats d
      /\ calls (snd (ExecContext query args d)) = calls d).
Proof.
  unfold QueryContext, ExecContext. split.
  - destruct drv_QueryContext as [f|]; [|auto].
    destruct (f query args (d_Driver d)). cbn. auto.
  - destruct drv_ExecContext as [f|]; [|auto].
    destruct (f query args (d_Driver d)). cbn. auto.
Qed.

Lemma step_inert (op : Op T) d :
  inert (Cache d) ->
  Cache (step op d) = Cache d /\ Hits (stats (step op d)) = Hits (stats d)
  /\ Errors (stats (step op d)) = Errors (stats d).
Proof.
  intros Hin.
  destruct op as [now ctx query args v | now r | | query args | query args];
    cbn [step].
  - now apply Query_inert.
  - now apply Close_inert.
  - auto.
  - destruct (passthroughs_frame query args d) as ((-> & -> & _) & _). auto.
  - destruct (passthroughs_frame query args d) as (_ & (-> & -> & _)). auto.
Qed.

(** X23. A driver over a store that holds nothing and takes nothing (every
    lookup misses, every write and delete succeeds, the state stays)
    never serves a hit and never counts an error: after any sequence of
    operations [Hits] and [Errors] are what they were, and the store is
    as it was. *)
Theorem inert_store_never_hits :
  forall (ops : list (Op T)) d,
    inert (Cache d) ->
    Cache (run ops d) = Cache d
    /\ Hits (stats (run ops d)) = Hits (stats d)
    /\ Errors (stats (run ops d)) = Errors (stats d).
Proof.
  induction ops as [|op ops IH]; intros d Hin; [cbn; auto|].
  rewrite run_cons.
  destruct (step_inert op d Hin) as (Hc & Hh & He).
  assert (inert (Cache (step op d))) as Hin' by now rewrite Hc.
  destruct (IH (step op d) Hin') as (Hc' & Hh' & He').
  rewrite Hc', Hh', He'. auto.
Qed.
End InertStore.

Section InertInstances.
Context {C : Type} {AGD : AddGetDeleter C}.

(** The context-level tier under a context that carries no store, and the
    composer over no tier, are such stores. *)
Lemma contextLevel_without_store (p : option nat) :
  inert (AGD := contextLevel_AddGetDeleter) (mkContext (C := C) None p).
Proof. repeat split. Qed.

Lemma multiLevel_without_tiers :
  inert (AGD := multiLevel_AddGetDeleter) (mkMultiLevel (S := C) []).
Proof. repeat split. Qed.
End InertInstances.

(** A driver in context-level mode, with a sink, used under a context
    that carries no store: the statement of the package's tests is run and
    its recorder closed, twice. *)
Lemma inert_store_never_hits_witness :
  stats (run (AGD := context_AddGetDeleter)
           [OpQuery 0 None select_active (ArgsSlice []) no_rows;
            OpClose 1 recorder_read_through;
            OpQuery 2 None select_active (ArgsSlice []) no_rows;
            OpClose 3 recorder_read_through]
           driver_plain_context)
  = mkStats 2 0 0
  /\ Hits (stats (run (AGD := context_AddGetDeleter)
                    [OpQuery 0 None select_active (ArgsSlice []) no_rows;
                     OpClose 1 recorder_read_through;
                     OpQuery 2 None select_active (ArgsSlice []) no_rows;
                     OpClose 3 recorder_read_through]
                    driver_plain_context))
     = Hits (stats driver_plain_context).
Proof.
  split; [reflexivity|].
  destruct (@inert_store_never_hits _ _ _ context_AddGetDeleter
              sliceRows_ColumnScanner expectations_dialectDriver
              [OpQuery 0 None select_active (ArgsSlice []) no_rows;
               OpClose 1 recorder_read_through;
               OpQuery 2 None select_active (ArgsSlice []) no_rows;
               OpClose 3 recorder_read_through]
              driver_plain_context
              (@contextLevel_without_store LRU (@LRU_AddGetDeleter gob1)
                 None))
    as (_ & Hh & _).
  exact Hh.
Defined.

(* ================================================================== *)
(** * The helpers that set the options of a call *)
(* ================================================================== *)

Lemma nth_error_set_at_same {A : Type} (i : nat) (x : A) (l : list A) :
  (i < List.length l)%nat -> nth_error (set_at i x l) i = Some x.
Proof.
  revert i. induction l as [|y l IH]; intros [|i] H; cbn in *;
    try lia; [reflexivity|]. apply IH. lia.
Qed.

Lemma nth_error_set_at_other {A : Type} (i j : nat) (x : A) (l : list A) :
  i <> j -> nth_error (set_at i x l) j = nth_error l j.
Proof.
  revert i j. induction l as [|y l IH]; intros [|i] [|j] H; cbn;
    try reflexivity; try congruence. apply IH. congruence.
Qed.

Lemma Forall_set_at {A : Type} (P : A -> Prop) (i : nat) (x : A)
  (l : list A) :
  P x -> Forall P l -> Forall P (set_at i x l).
Proof.
  intros Hx. revert i. induction l as [|y l IH]; intros [|i] H; cbn;
    try assumption; inversion H; subst; constructor; auto.
Qed.

Section Helpers.
Context {C : Type}.
Implicit Types (ctx : Context C) (h : heap) (f : helper).

(** Each helper is one scheme: a new record, the zero value with the
    helper's fields set, when the context has none, and the helper's
    fields set in place when it has one. *)
Lemma apply_helper_scheme f ctx h :
  apply_helper f ctx h
  = match value_ctxOptionsKey ctx with
    | None => with_options ctx (effect f (ctx_or_zero None)) h
    | Some p => (ctx, modify p (effect f) h)
    end.
Proof.
  destruct f; cbn [apply_helper]; unfold Skip, Evict, WithKey, WithTTL;
    destruct (value_ctxOptionsKey ctx); reflexivity.
Qed.

Lemma apply_helper_load f ctx h :
  allocated h ctx ->
  load (snd (apply_helper f ctx h)) (fst (apply_helper f ctx h))
  = Some (effect f (ctx_or_zero (load h ctx)))
  /\ allocated (snd (apply_helper f ctx h)) (fst (apply_helper f ctx h)).
Proof.
  intros Hal. rewrite apply_helper_scheme. unfold allocated, load in *.
  destruct (value_ctxOptionsKey ctx) as [p|] eqn:Hp.
  - cbn [fst snd]. rewrite Hp. unfold modify.
    destruct (nth_error h p) as [c|] eqn:Hc.
    2:{ apply nth_error_None in Hc. lia. }
    cbn [ctx_or_zero]. split.
    + now apply nth_error_set_at_same.
    + now rewrite set_at_length.
  - unfold with_options. cbn [fst snd value_ctxOptionsKey]. split.
    + rewrite nth_error_app2 by lia. now rewrite Nat.sub_diag.
    + rewrite length_app. cbn. lia.
Qed.

(** X24. What a helper leaves behind. The context it returns carries the
    options the context given carried (the zero value when it carried
    none) with the helper's fields set. When the context given already
    carried options, it is returned itself and its record is changed in
    place, so the context given, and every context that shares the
    record, sees the change; when it carried none it still carries none.
    No other record changes. *)
Theorem helper_sets_options :
  forall f ctx h,
    allocated h ctx ->
    let ctx' := fst (apply_helper f ctx h) in
    let h' := snd (apply_helper f ctx h) in
    load h' ctx' = Some (effect f (ctx_or_zero (load h ctx)))
    /\ allocated h' ctx'
    /\ value_ctxKey ctx' = value_ctxKey ctx
    /\ (value_ctxOptionsKey ctx <> None -> ctx' = ctx)
    /\ (value_ctxOptionsKey ctx = None -> load h' ctx = None)
    /\ (forall q, (q < List.length h)%nat ->
                  value_ctxOptionsKey ctx <> Some q ->
                  nth_error h' q = nth_error h q).
Proof.
  intros f ctx h Hal.
  destruct (apply_helper_load f ctx h Hal) as (Hl & Hal').
  cbv zeta. split; [exact Hl|]. split; [exact Hal'|]. clear Hl Hal'.
  rewrite apply_helper_scheme. unfold allocated, load in *.
  destruct (value_ctxOptionsKey ctx) as [p|] eqn:Hp.
  - cbn [fst snd]. unfold modify.
    destruct (nth_error h p) as [c|] eqn:Hc.
    2:{ apply nth_error_None in Hc. lia. }
    repeat split.
    + discriminate.
    + intros q _ Hq. apply nth_error_set_at_other. congruence.
  - unfold with_options. cbn [fst snd value_ctxOptionsKey value_ctxKey].
    repeat split.
    + congruence.
    + intros q Hq _. now rewrite nth_error_app1.
Qed.

(** X25. Helpers compose: after a chain of helpers, each applied to the
    context the former returned, the options of the call are those the
    first context carried with the helpers' fields set in that order. *)
Theorem helpers_compose :
  forall (fs : list helper) ctx h,
    allocated h ctx ->
    let ctx' := fst (apply_helpers fs ctx h) in
    let h' := snd (apply_helpers fs ctx h) in
    allocated h' ctx'
    /\ ctx_or_zero (load h' ctx')
       = fold_left (fun c f => effect f c) fs (ctx_or_zero (load h ctx)).
Proof.
  induction fs as [|f fs IH]; intros ctx h Hal; [cbn; auto|].
  cbn [apply_helpers fold_left].
  destruct (apply_helper_load f ctx h Hal) as (Hl & Hal').
  destruct (apply_helper f ctx h) as [ctx1 h1]. cbn [fst snd] in *.
  destruct (IH ctx1 h1 Hal') as (Hal2 & Hl2).
  split; [exact Hal2|]. now rewrite Hl2, Hl.
Qed.

Lemma effect_evict_skips f (c : ctxOptions) :
  evict_skips c -> evict_skips (effect f c).
Proof. destruct f; unfold evict_skips; cbn; auto. Qed.

(** X26. The helpers never build options that evict without skipping:
    when every record satisfies this, every record does after a helper. *)
Theorem helpers_keep_evict_skips :
  forall f ctx h,
    Forall evict_skips h ->
    Forall evict_skips (snd (apply_helper f ctx h)).
Proof.
  intros f ctx h H. rewrite apply_helper_scheme.
  destruct (value_ctxOptionsKey ctx) as [p|].
  - cbn [snd]. unfold modify. destruct (nth_error h p) as [c|] eqn:Hc; auto.
    apply Forall_set_at; auto. apply effect_evict_skips.
    rewrite Forall_forall in H. apply H. eapply nth_error_In; eauto.
  - unfold with_options. cbn [snd]. apply Forall_app. split; auto.
    constructor; [|constructor]. apply effect_evict_skips.
    unfold evict_skips. cbn. discriminate.
Qed.
End Helpers.

(** [WithKey] on a plain context, then [Skip] on a context derived from
    the result: the first context returned now skips too. *)
Lemma helper_sets_options_witness :
  load (snd (apply_helper HSkip
               (mkContext (C := LRU) (Some (NewLRU 8)) (Some 0%nat))
               [ctx_key]))
    (mkContext (C := LRU) None (Some 0%nat))
  = Some (mkCtxOptions true false (KString "cache-key") 0).
Proof.
  destruct (@helper_sets_options LRU HSkip
              (mkContext (Some (NewLRU 8)) (Some 0%nat)) [ctx_key])
    as (Hl & _ & _ & Hs & _).
  - cbn. lia.
  - cbn [fst snd] in Hs. exact Hl.
Defined.

Lemma helpers_compose_witness :
  ctx_or_zero
    (load (snd (apply_helpers [HWithKey (KString "cache-key"); HEvict;
                               HWithTTL 5]
                  (Background (C := LRU)) []))
       (fst (apply_helpers [HWithKey (KString "cache-key"); HEvict;
                            HWithTTL 5]
               (Background (C := LRU)) [])))
  = mkCtxOptions true true (KString "cache-key") 5.
Proof.
  destruct (@helpers_compose LRU
              [HWithKey (KString "cache-key"); HEvict; HWithTTL 5]
              Background []) as (_ & Hl).
  - exact I.
  - exact Hl.
Defined.

Lemma helpers_keep_evict_skips_witness :
  Forall evict_skips
    (snd (apply_helper HEvict (mkContext (C := LRU) None (Some 0%nat))
            [ctx_key])).
Proof.
  apply (@helpers_keep_evict_skips LRU).
  constructor; [|constructor]. unfold evict_skips. cbn. discriminate.
Defined.
